(** * Student agent: task extraction and block scheduling

    A shallow embedding of [student_agent_core.py] (the scheduler
    [plan_blocks] with [next_work_start], [extract_tasks_from_inputs]
    with its de-duplication loop, [rule_based_extract] with its
    regular expressions, and the order of [tasks_to_notion_md]) and of
    the planner settings of [student_agent_app.py], followed by the
    properties of the specification stated over it and by further
    properties of the code.

    Modelling conventions.
    - A [datetime] is an aware datetime whose [tzinfo] is [APP_TZ].  All
      the datetimes the program handles are of that kind ([datetime.now(APP_TZ)],
      [parse_possible_date] ends in [astimezone(APP_TZ)]).  For two such
      values Python compares, subtracts and adds [timedelta]s on the
      wall-clock fields only, and [astimezone(APP_TZ)] is the identity, so
      a datetime is the number of microseconds on the local wall clock
      counted from an arbitrary midnight.  The year range of Python's
      [datetime] (an [OverflowError] past year 9999) is not modelled.
    - A [str] is a Rocq [string] read as a sequence of code points below
      256 (Latin-1); the character tables below are Python's for that
      range.
    - A [float] is an exact rational: the rounding to double precision
      of a conversion or of a product is not modelled, so [cap_of] and
      [estimate] give the code's value when the number and its product
      are exact in double precision (the multiples of 0.5 of the
      interface's slider, whole numbers of minutes or hours), and may
      differ from it by one otherwise.  What is stated of an estimate
      beyond that ([est_from]) is kept to what the two roundings agree
      on: the sign, zero, and the side of 1 on which the product lies.
    - [uuid.uuid4] and the [dateparser] library are inputs.  So is
      [datetime.now]: the scheduler reads it once ([now]); the extractor
      reads it anew for every dated line, and takes [now n] for the
      task number [n]. *)

From Stdlib Require Import ZArith QArith Qround Lia List Sorted Ascii String.
From stdpp Require Import base option list strings gmap.

Local Open Scope Z_scope.

(** ** Wall-clock time *)

Definition datetime := Z.

Definition MICROSECOND : Z := 1.
Definition SECOND : Z := 1000000.
Definition MINUTE : Z := 60 * SECOND.
Definition HOUR : Z := 60 * MINUTE.
Definition DAY : Z := 24 * HOUR.

(** [timedelta(days=d)], [timedelta(hours=h)], [timedelta(minutes=m)]. *)
Definition days (d : Z) : Z := d * DAY.
Definition hours (h : Z) : Z := h * HOUR.
Definition minutes (m : Z) : Z := m * MINUTE.

(** [dt.date()] as a day number and [dt.time()] as microseconds since
    midnight. *)
Definition date (dt : datetime) : Z := dt / DAY.
Definition time_of (dt : datetime) : Z := dt mod DAY.

(** A [datetime.time] built as [time(h, m)]: seconds and microseconds
    are zero. *)
Record time := mk_time { hour : Z; minute : Z }.

Definition time_us (t : time) : Z := hours (hour t) + minutes (minute t).

(** [dt.replace(hour=h, minute=m, second=0, microsecond=0)]. *)
Definition replace_hms (dt : datetime) (h m : Z) : datetime :=
  days (date dt) + hours h + minutes m.

(** [dt.replace(hour=h, minute=m)]: seconds and microseconds are kept. *)
Definition replace_hm (dt : datetime) (h m : Z) : datetime :=
  days (date dt) + hours h + minutes m + time_of dt mod MINUTE.

(** ** Configuration and data model *)

(** The module variables the user interface rewrites before planning. *)
Record Config := { WORK_START : time; WORK_END : time }.

Definition default_config : Config :=
  {| WORK_START := mk_time 9 0; WORK_END := mk_time 21 0 |}.

Definition DEFAULT_DAILY_HOURS : Q := 2%Q.
Definition BLOCK_MINUTES : Z := 50.

Record Task := {
  id : string;
  title : string;
  due : option datetime;
  est_minutes : option Z;
  tag : option string;
  priority : Z;
  source : option string
}.

(** The dictionaries [plan_blocks] appends to [blocks]. *)
Record Block := {
  task_id : string;
  blk_title : string;
  start : datetime;
  end_ : datetime;
  blk_due : option datetime;
  blk_source : option string
}.

(** ** Scheduling *)

Definition next_work_start (cfg : Config) (after : datetime) : datetime :=
  let local := after in
  if time_of local <? time_us (WORK_START cfg) then
    replace_hms local (hour (WORK_START cfg)) (minute (WORK_START cfg))
  else if time_us (WORK_END cfg) <=? time_of local then
    replace_hms (local + days 1) (hour (WORK_START cfg)) (minute (WORK_START cfg))
  else local.

(** [int(x)] on a float: truncation towards zero. *)
Definition int_of_Q (x : Q) : Z := Z.quot (Qnum x) (Zpos (Qden x)).

(** [cap = int(daily_hours * 60)], the product taken exactly. *)
Definition cap_of (daily_hours : Q) : Z := int_of_Q (daily_hours * 60)%Q.

(** The sort key [(t.priority, t.due or now + timedelta(days=30))] and
    Python's [<] on such pairs. *)
Definition sort_key (now : datetime) (t : Task) : Z * datetime :=
  (priority t, default (now + days 30) (due t)).

Definition key_lt (k1 k2 : Z * datetime) : bool :=
  (k1.1 <? k2.1) || ((k1.1 =? k2.1) && (k1.2 <? k2.2)).

(** [sorted(tasks, key=...)]: the stable sort.  An element is inserted
    in front of the sorted rest and moves right only past strictly
    smaller keys. *)
Fixpoint insert_by (now : datetime) (x : Task) (l : list Task) : list Task :=
  match l with
  | [] => [x]
  | y :: l' =>
      if key_lt (sort_key now y) (sort_key now x)
      then y :: insert_by now x l'
      else x :: l
  end.

Definition by_priority (now : datetime) (tasks : list Task) : list Task :=
  foldr (insert_by now) [] tasks.

(** [f"[{t.tag}] {t.title}" if t.tag else t.title]: an empty tag is falsy. *)
Definition block_title (t : Task) : string :=
  match tag t with
  | Some tg => if decide (tg = EmptyString) then title t
               else "[" +:+ tg +:+ "] " +:+ title t
  | None => title t
  end.

(** [int(t.est_minutes or 60)]: [None] and [0] both give 60. *)
Definition est_or_default (t : Task) : Z :=
  match est_minutes t with
  | Some e => if e =? 0 then 60 else e
  | None => 60
  end.

(** The variables of the [while] loop of [plan_blocks]. *)
Record LoopState := {
  remaining : Z;
  cursor : datetime;
  day_budget : gmap Z Z;
  blocks : list Block
}.

Section PlanBlocks.
Context (cfg : Config) (now : datetime) (daily_hours : Q).

Definition last_allowed_of (t : Task) : datetime :=
  match due t with
  | Some d => d - hours 1
  | None => now + days 14
  end.

Definition loop_cond (t : Task) (s : LoopState) : bool :=
  (0 <? remaining s) && (cursor s <=? last_allowed_of t).

(** "advance to next day start". *)
Definition next_day (c : datetime) : datetime :=
  next_work_start cfg
    (replace_hm c (hour (WORK_END cfg)) (minute (WORK_END cfg)) + minutes 1).

(** One pass through the body of the [while] loop. *)
Definition loop_body (t : Task) (s : LoopState) : LoopState :=
  let day_key := date (cursor s) in
  let used := default 0 (day_budget s !! day_key) in
  let cap := cap_of daily_hours in
  if cap <=? used then
    {| remaining := remaining s; cursor := next_day (cursor s);
       day_budget := day_budget s; blocks := blocks s |}
  else
    let block_len := Z.min (Z.min BLOCK_MINUTES (remaining s)) (cap - used) in
    let block_end := cursor s + minutes block_len in
    if time_us (WORK_END cfg) <? time_of block_end then
      {| remaining := remaining s; cursor := next_day (cursor s);
         day_budget := day_budget s; blocks := blocks s |}
    else
      {| remaining := remaining s - block_len;
         cursor := block_end + minutes 10;
         day_budget :=
           <[day_key := default 0 (day_budget s !! day_key) + block_len]>
             (day_budget s);
         blocks := blocks s ++
           [ {| task_id := id t; blk_title := block_title t;
                start := cursor s; end_ := block_end;
                blk_due := due t; blk_source := source t |} ] |}.

(** The [while] loop, run for at most [fuel] passes; [None] when the
    passes run out before the condition fails. *)
Fixpoint while_loop (fuel : nat) (t : Task) (s : LoopState) : option LoopState :=
  if loop_cond t s then
    match fuel with
    | O => None
    | S fuel' => while_loop fuel' t (loop_body t s)
    end
  else Some s.

(** The loop variables on entry to the [while] loop for task [t]. *)
Definition task_entry (t : Task) (budget : gmap Z Z) (bs : list Block) : LoopState :=
  {| remaining := Z.max 30 (est_or_default t);
     cursor := next_work_start cfg now;
     day_budget := budget;
     blocks := bs |}.

(** The [for] loop over the sorted tasks, recording for each task the
    loop variables on entry and on exit. *)
Fixpoint for_tasks (fuel : nat) (ts : list Task) (budget : gmap Z Z) (bs : list Block)
  : option (list (LoopState * LoopState) * list Block) :=
  match ts with
  | [] => Some ([], bs)
  | t :: ts' =>
      match while_loop fuel t (task_entry t budget bs) with
      | None => None
      | Some s =>
          match for_tasks fuel ts' (day_budget s) (blocks s) with
          | None => None
          | Some (tr, out) => Some ((task_entry t budget bs, s) :: tr, out)
          end
      end
  end.

Definition plan_trace (fuel : nat) (tasks : list Task)
  : option (list (LoopState * LoopState)) :=
  fst <$> for_tasks fuel (by_priority now tasks) ∅ [].

Definition plan_blocks (fuel : nat) (tasks : list Task) : option (list Block) :=
  snd <$> for_tasks fuel (by_priority now tasks) ∅ [].
End PlanBlocks.

(** ** Measuring a plan *)

Definition Zsum (l : list Z) : Z := foldr Z.add 0 l.

(** The length of a block in minutes, and the minutes planned on the
    calendar date [d]: the sum over the blocks that start on [d]. *)
Definition block_minutes (b : Block) : Z := (end_ b - start b) / MINUTE.

Definition minutes_on (d : Z) (bs : list Block) : Z :=
  Zsum (block_minutes <$> filter (λ b, date (start b) = d) bs).

(** A [datetime.time] with fields in range, and a working day whose
    start is not after its end. *)
Definition valid_time (t : time) : Prop :=
  0 <= hour t <= 23 ∧ 0 <= minute t <= 59.

Definition valid_config (cfg : Config) : Prop :=
  valid_time (WORK_START cfg) ∧ valid_time (WORK_END cfg) ∧
  time_us (WORK_START cfg) <= time_us (WORK_END cfg).


(** The lexicographic order on sort keys that [key_lt] decides. *)
Definition key_le (k1 k2 : Z * datetime) : Prop :=
  k1.1 < k2.1 ∨ (k1.1 = k2.1 ∧ k1.2 <= k2.2).

(** A bound on the passes the [while] loop still makes from [s]: the
    minutes left to place plus the days left before the cutoff. *)
Definition loop_measure (now : datetime) (t : Task) (s : LoopState) : nat :=
  Z.to_nat (Z.max 0 (remaining s) +
            Z.max 0 (date (last_allowed_of now t) - date (cursor s) + 1)).

(** ** Sample inputs *)

(** Day 100 of the wall clock at 08:00 and at 22:10. *)
Definition now_8am : datetime := days 100 + hours 8.
Definition now_2210 : datetime := days 100 + hours 22 + minutes 10.

(** The working day the interface allows at its latest end, 23:00. *)
Definition late_config : Config :=
  {| WORK_START := mk_time 9 0; WORK_END := mk_time 23 0 |}.


Definition sample_task (i : string) (e : Z) (d : option datetime) (p : Z) : Task :=
  {| id := i; title := i; due := d; est_minutes := Some e; tag := None;
     priority := p; source := Some "pasted" |}.

Definition task_a : Task := sample_task "a" 90 None 3.
Definition task_b : Task := sample_task "b" 90 None 3.
Definition task_long : Task := sample_task "long" 150 None 3.
Definition task_dated : Task := sample_task "dated" 90 (Some (now_8am + days 2)) 2.
Definition task_far : Task := sample_task "far" 90 (Some (now_8am + days 40)) 3.

(** ** The properties of the specification, as predicates *)

(** Each task starts from the cursor the previous task ended with. *)
Definition cursor_carried (tr : list (LoopState * LoopState)) : Prop :=
  ∀ i p q, tr !! i = Some p → tr !! S i = Some q → cursor q.1 = cursor p.2.

(** Within a priority, an undated task is followed by undated tasks only. *)
Definition undated_last (l : list Task) : Prop :=
  ∀ i j a b, l !! i = Some a → l !! j = Some b → (i < j)%nat →
    priority a = priority b → due a = None → due b = None.

(** The four conditions on a block. *)
Definition block_ok (cfg : Config) (b : Block) : Prop :=
  end_ b - start b <= minutes BLOCK_MINUTES ∧
  time_of (end_ b) <= time_us (WORK_END cfg) ∧
  time_us (WORK_START cfg) <= time_of (start b) ∧
  start b < end_ b.

(** ** Python strings (code points below 256) *)

Definition code (c : ascii) : N := N_of_ascii c.

Definition in_range (lo hi : N) (c : ascii) : bool :=
  ((lo <=? code c) && (code c <=? hi))%N.

(** [str.isspace] and the class [\s] of [re]. *)
Definition isspace (c : ascii) : bool :=
  in_range 9 13 c || in_range 28 32 c || (code c =? 133)%N || (code c =? 160)%N.

(** The line boundaries of [str.splitlines]. *)
Definition is_linebreak (c : ascii) : bool :=
  in_range 10 13 c || in_range 28 30 c || (code c =? 133)%N.

(** The class [\d] of [re]. *)
Definition isdigit (c : ascii) : bool := in_range 48 57 c.

(** The class [\w] of [re]: alphanumeric characters and the underscore. *)
Definition isword (c : ascii) : bool :=
  in_range 48 57 c || in_range 65 90 c || (code c =? 95)%N || in_range 97 122 c ||
  (code c =? 170)%N || in_range 178 179 c || (code c =? 181)%N ||
  in_range 185 186 c || in_range 188 190 c || in_range 192 214 c ||
  in_range 216 246 c || in_range 248 255 c.

(** The classes [[a-z]] and [[A-Z]] under [re.IGNORECASE]. *)
Definition isletter (c : ascii) : bool := in_range 65 90 c || in_range 97 122 c.

(** [str.lower] on one character. *)
Definition lower_char (c : ascii) : ascii :=
  if in_range 65 90 c || in_range 192 214 c || in_range 216 222 c
  then ascii_of_N (code c + 32) else c.

Fixpoint lower (s : string) : string :=
  match s with
  | EmptyString => EmptyString
  | String c s' => String (lower_char c) (lower s')
  end.

Fixpoint lstrip (s : string) : string :=
  match s with
  | EmptyString => EmptyString
  | String c s' => if isspace c then lstrip s' else s
  end.

Fixpoint rstrip (s : string) : string :=
  match s with
  | EmptyString => EmptyString
  | String c s' =>
      match rstrip s' with
      | EmptyString => if isspace c then EmptyString else String c EmptyString
      | r => String c r
      end
  end.

Definition strip (s : string) : string := rstrip (lstrip s).

(** [s[:n]]. *)
Fixpoint prefix (n : nat) (s : string) : string :=
  match n, s with
  | S n', String c s' => String c (prefix n' s')
  | _, _ => EmptyString
  end.

(** [s.replace("\n", " ")]. *)
Fixpoint replace_newlines (s : string) : string :=
  match s with
  | EmptyString => EmptyString
  | String c s' =>
      String (if (code c =? 10)%N then " "%char else c) (replace_newlines s')
  end.

(** [re.sub(r"\s+", " ", s)]; [in_run] tells that the previous character
    was white space, already replaced. *)
Fixpoint collapse_from (in_run : bool) (s : string) : string :=
  match s with
  | EmptyString => EmptyString
  | String c s' =>
      if isspace c
      then (if in_run then collapse_from true s'
            else String " "%char (collapse_from true s'))
      else String c (collapse_from false s')
  end.

Definition collapse_spaces (s : string) : string := collapse_from false s.

(** [s.splitlines()]; [cur] is the line read so far and [after_cr] tells
    that the previous character was a carriage return, which a line feed
    then completes. *)
Fixpoint splitlines_from (after_cr : bool) (cur : string) (s : string) : list string :=
  match s with
  | EmptyString => match cur with EmptyString => [] | _ => [cur] end
  | String c s' =>
      if after_cr && (code c =? 10)%N then splitlines_from false cur s'
      else if is_linebreak c then cur :: splitlines_from (code c =? 13)%N EmptyString s'
      else splitlines_from false (cur +:+ String c EmptyString) s'
  end.

Definition splitlines (s : string) : list string := splitlines_from false EmptyString s.

Definition nonempty (s : string) : bool :=
  match s with EmptyString => false | _ => true end.

(** ** Regular expressions, with the backtracking semantics of [re] *)

Inductive regex :=
| Eps
| Chr (p : ascii → bool)
| Seq (r1 r2 : regex)
| Alt (r1 r2 : regex)
| Opt (r : regex)
| Rep (p : ascii → bool) (lo : nat) (hi : option nat)
| WordB
| Group (n : nat) (r : regex).

(** A position in the subject: the character before it, the text after
    it and its index. *)
Record cur := { prev : option ascii; rest : string; pos : nat }.

(** The spans of the groups matched so far, latest first. *)
Definition caps := list (nat * (nat * nat)).

Definition isword_at (c : option ascii) : bool :=
  match c with Some x => isword x | None => false end.

Definition next_char (s : string) : option ascii :=
  match s with String c _ => Some c | EmptyString => None end.

(** [[p]{lo,hi}] (greedy): take a character while the class and the
    bound allow, and fall back to stopping here when the rest fails. *)
Fixpoint rep (p : ascii → bool) (lo : nat) (hi : option nat)
    (pv : option ascii) (s : string) (i : nat)
    (k : cur → option (nat * caps)) : option (nat * caps) :=
  let stop :=
    match lo with
    | O => k {| prev := pv; rest := s; pos := i |}
    | S _ => None
    end in
  match hi, s with
  | Some O, _ => stop
  | _, String c s' =>
      if p c then
        match rep p (Nat.pred lo) (Nat.pred <$> hi) (Some c) s' (S i) k with
        | Some m => Some m
        | None => stop
        end
      else stop
  | _, EmptyString => stop
  end.

(** Match [r] at [c] and then the continuation [k]; alternatives are
    tried in order and the first success is kept. *)
Fixpoint rmatch (r : regex) (k : cur → caps → option (nat * caps))
    (c : cur) (g : caps) : option (nat * caps) :=
  match r with
  | Eps => k c g
  | Chr p =>
      match rest c with
      | String x s' =>
          if p x then k {| prev := Some x; rest := s'; pos := S (pos c) |} g
          else None
      | EmptyString => None
      end
  | Seq r1 r2 => rmatch r1 (λ c' g', rmatch r2 k c' g') c g
  | Alt r1 r2 =>
      match rmatch r1 k c g with
      | Some m => Some m
      | None => rmatch r2 k c g
      end
  | Opt r1 =>
      match rmatch r1 k c g with
      | Some m => Some m
      | None => k c g
      end
  | Rep p lo hi => rep p lo hi (prev c) (rest c) (pos c) (λ c', k c' g)
  | WordB =>
      if xorb (isword_at (prev c)) (isword_at (next_char (rest c)))
      then k c g else None
  | Group n r1 => rmatch r1 (λ c' g', k c' ((n, (pos c, pos c')) :: g')) c g
  end.

(** A match object: the span of the whole match and of its groups. *)
Record Match := { subject : string; m_start : nat; m_end : nat; m_groups : caps }.

(** [pattern.search(s)]: the match at the leftmost position that has one. *)
Fixpoint search_from (r : regex) (subj : string) (pv : option ascii)
    (s : string) (i : nat) : option Match :=
  match rmatch r (λ c' g, Some (pos c', g)) {| prev := pv; rest := s; pos := i |} [] with
  | Some (e, g) =>
      Some {| subject := subj; m_start := i; m_end := e; m_groups := g |}
  | None =>
      match s with
      | EmptyString => None
      | String c s' => search_from r subj (Some c) s' (S i)
      end
  end.

Definition search (r : regex) (s : string) : option Match :=
  search_from r s None s 0.

Fixpoint span_of (n : nat) (g : caps) : option (nat * nat) :=
  match g with
  | [] => None
  | (m, sp) :: g' => if Nat.eqb m n then Some sp else span_of n g'
  end.

(** [m.group(0)] and [m.group(n)]; a group that did not take part in the
    match is [None]. *)
Definition group0 (m : Match) : string :=
  String.substring (m_start m) (m_end m - m_start m) (subject m).

Definition group (n : nat) (m : Match) : option string :=
  match span_of n (m_groups m) with
  | Some (a, b) => Some (String.substring a (b - a) (subject m))
  | None => None
  end.

(** A literal character and a literal word under [re.IGNORECASE]. *)
Definition ci (c : ascii) : regex :=
  Chr (λ x, Ascii.eqb (lower_char x) (lower_char c)).

Fixpoint lit (s : string) : regex :=
  match s with
  | EmptyString => Eps
  | String c EmptyString => ci c
  | String c s' => Seq (ci c) (lit s')
  end.

Fixpoint alts (rs : list regex) : regex :=
  match rs with
  | [] => Eps
  | [r] => r
  | r :: rs' => Alt r (alts rs')
  end.

Fixpoint seqs (rs : list regex) : regex :=
  match rs with
  | [] => Eps
  | [r] => r
  | r :: rs' => Seq r (seqs rs')
  end.

(** The upper bound of [{lo,hi}]; [None] is no bound. *)
Definition at_most (n : nat) : option nat := Some n.

Definition spaces0 : regex := Rep isspace 0 None.
Definition spaces1 : regex := Rep isspace 1 None.
Definition digits (lo : nat) (hi : option nat) : regex := Rep isdigit lo hi.

(** ** The patterns of the extractor *)

Definition weekday : regex :=
  alts (lit <$> ["Mon"; "Tue"; "Wed"; "Thu"; "Fri"; "Sat"; "Sun"]).

(** [\b(assign|finish|...|write)\b], case-insensitive. *)
Definition VERB_PAT : regex :=
  seqs [ WordB;
         Group 1 (alts (lit <$>
           ["assign"; "finish"; "read"; "solve"; "submit"; "implement"; "study";
            "review"; "fix"; "email"; "apply"; "prepare"; "meet"; "write"]));
         WordB ].

Definition DUE_PAT : regex :=
  seqs [ Alt (seqs [ alts (lit <$> ["due"; "deadline"; "submit"; "by"]);
                     spaces0; Opt (ci ":") ])
             WordB;
         spaces0;
         Opt (Seq (lit "on") spaces1);
         Group 1 (alts
           [ seqs [ Opt (seqs [WordB; weekday; WordB]); spaces0;
                    Opt (Chr isletter); Rep isletter 2 (at_most 9); spaces1;
                    digits 1 (at_most 2);
                    Opt (seqs [ci ","; spaces0; digits 4 (at_most 4)]) ];
             seqs [ digits 1 (at_most 2); ci "/"; digits 1 (at_most 2);
                    Opt (Seq (ci "/") (digits 2 (at_most 4))) ];
             alts [ lit "tomorrow"; lit "today";
                    seqs [lit "next"; spaces1; weekday] ] ]) ].

Definition EST_PAT : regex :=
  seqs [ Opt (ci "~"); spaces0;
         Group 1 (Seq (digits 1 None) (Opt (Seq (ci ".") (digits 1 None))));
         spaces0;
         Group 2 (Alt (Seq (ci "h") (Opt (Seq (lit "our") (Opt (ci "s")))))
                      (Seq (ci "m")
                         (Opt (Seq (lit "in") (Opt (Alt (ci "s") (lit "utes"))))))) ].

Definition TAG_PAT : regex :=
  seqs [ WordB;
         Group 1 (alts
           [ Seq (lit "CS") (digits 1 (at_most 3));
             seqs [lit "Calc"; spaces0; ci "3"];
             seqs [lit "Linear"; spaces0; lit "Algebra"];
             lit "Physics"; lit "Project"; lit "Work"; lit "Personal" ]);
         WordB ].

(** ** Numbers *)

(** The decimal digits at the head of [s]: their value after [acc], how
    many there are, and what follows them. *)
Fixpoint read_digits (s : string) (acc : Z) (n : nat) : Z * nat * string :=
  match s with
  | String c s' =>
      if isdigit c then read_digits s' (10 * acc + Z.of_N (code c - 48)) (S n)
      else (acc, n, s)
  | EmptyString => (acc, n, s)
  end.

(** [float(s)] for the numerals [\d+(\.\d+)?], the only strings the
    extractor converts; [None] stands for the [ValueError] on another
    string. *)
Definition float_of_str (s : string) : option Q :=
  let '(i, ni, r) := read_digits s 0 0 in
  match ni, r with
  | O, _ => None
  | _, EmptyString => Some (inject_Z i)
  | _, String c r' =>
      if (code c =? 46)%N then
        let '(f, nf, r'') := read_digits r' 0 0 in
        match nf, r'' with
        | S _, EmptyString =>
            Some (inject_Z (i * 10 ^ Z.of_nat nf + f) / inject_Z (10 ^ Z.of_nat nf))%Q
        | _, _ => None
        end
      else None
  end.

(** The least magnitude a float rounds to infinity at. *)
Definition FLOAT_OVERFLOW : Q := inject_Z (2 ^ 1024 - 2 ^ 970).

(** [round(x)]: to the nearest integer, halves to the even one. *)
Definition round_half_even (x : Q) : Z :=
  let f := Qfloor x in
  match (x - inject_Z f ?= 1 # 2)%Q with
  | Lt => f
  | Gt => f + 1
  | Eq => if Z.even f then f else f + 1
  end.

(** [int(round(x))]; [round] raises [OverflowError] on infinity, [None]
    here. *)
Definition int_round (x : Q) : option Z :=
  if Qle_bool FLOAT_OVERFLOW x then None else Some (round_half_even x).

Definition startswith_h (s : string) : bool :=
  match s with String c _ => (code c =? 104)%N | EmptyString => false end.

(** ** Extraction *)

Definition is_candidate (ln : string) : bool :=
  match search VERB_PAT ln with Some _ => true | None => false end.

(** [[ln.strip() for ln in text.splitlines() if ln.strip()]]. *)
Definition nonblank_lines (text : string) : list string :=
  strip <$> filter (λ ln, nonempty (strip ln) = true) (splitlines text).

(** The estimate of a line: 60 without a match of [EST_PAT], and else
    [int(round(float(val) * (60 if unit.startswith('h') else 1)))], the
    product taken exactly. *)
Definition estimate (ln : string) : option Z :=
  match search EST_PAT ln with
  | None => Some 60
  | Some e =>
      val ← group 1 e;
      unit ← group 2 e;
      x ← float_of_str val;
      int_round (x * (if startswith_h (lower unit) then 60 else 1))%Q
  end.

(** The title of the task made of a text without candidate lines. *)
Definition fallback_title (text : string) : string :=
  "Review: " +:+ replace_newlines (prefix 60 (strip text)) +:+
  (if (60 <? String.length text)%nat then "..." else "").

(** "Priority heuristic (earlier due = higher)"; [now] is the reading of
    [datetime.now(APP_TZ)] when the line is processed. *)
Definition priority_of (now : datetime) (due : option datetime) : Z :=
  match due with
  | None => 3
  | Some d =>
      if d - now <=? days 1 then 1
      else if d - now <=? days 3 then 2
      else if days 14 <=? d - now then 4
      else 3
  end.

Section Extractor.
(** [dateparser.parse] with the settings of [parse_possible_date],
    its result read on the wall clock of [APP_TZ]; the clock, read anew
    for every task: [now n] is the reading of [datetime.now(APP_TZ)]
    while the [n]-th task is made; and the identifiers [uuid4]
    produces, in the order of the calls. *)
Context (dateparser_parse : string → option datetime).
Context (now : nat → datetime) (uuid : nat → string).

Definition parse_possible_date (s : string) : option datetime :=
  dateparser_parse s.

Definition due_of (ln : string) : option datetime :=
  match search DUE_PAT ln with
  | Some m => s ← group 1 m; parse_possible_date s
  | None => None
  end.

(** The task of a candidate line, the [n]-th task created. *)
Definition task_of_line (source_name : string) (n : nat) (ln : string) : option Task :=
  let due := due_of ln in
  est ← estimate ln;
  let tg := group0 <$> search TAG_PAT ln in
  Some {| id := uuid n; title := ln; due := due; est_minutes := Some est;
          tag := tg; priority := priority_of (now n) due;
          source := Some source_name |}.

(** The loop over the lines; [None] when a conversion raises. *)
Fixpoint extract_lines (source_name : string) (lines : list string) (tasks : list Task)
  : option (list Task) :=
  match lines with
  | [] => Some tasks
  | ln :: lines' =>
      if is_candidate ln then
        t ← task_of_line source_name (length tasks) ln;
        extract_lines source_name lines' (tasks ++ [t])
      else extract_lines source_name lines' tasks
  end.

Definition rule_based_extract (text : string) (source_name : string)
  : option (list Task) :=
  tasks ← extract_lines source_name (nonblank_lines text) [];
  Some match tasks with
       | [] =>
           if nonempty (strip text) then
             [ {| id := uuid 0; title := fallback_title text; due := None;
                  est_minutes := Some 60; tag := None; priority := 3;
                  source := Some source_name |} ]
           else []
       | _ => tasks
       end.
End Extractor.

(** ** De-duplication *)

(** [re.sub(r"\s+", " ", t.title.strip().lower())]. *)
Definition title_key (t : Task) : string :=
  collapse_spaces (lower (strip (title t))).

(** The loop "De-duplicate by normalized title" with its two
    accumulators. *)
Fixpoint dedupe_loop (all_tasks : list Task) (seen : gset string) (deduped : list Task)
  : list Task :=
  match all_tasks with
  | [] => deduped
  | t :: rest =>
      if decide (title_key t ∈ seen) then dedupe_loop rest seen deduped
      else dedupe_loop rest ({[title_key t]} ∪ seen) (deduped ++ [t])
  end.

Definition dedupe (all_tasks : list Task) : list Task := dedupe_loop all_tasks ∅ [].

(** ** Sample texts *)

Definition sample_line : string :=
  "Submit Lab 5 for CS61 on Fri Oct 3 by 11:59pm (~2h).".

(** October 3 at 23:59 and September 20 at 08:00, counted from the
    first midnight of a common year. *)
Definition oct3_2359 : datetime := days 275 + hours 23 + minutes 59.
Definition sep20_8am : datetime := days 262 + hours 8.

(** A date resolver that maps every phrase naming "Oct 3" to October 3
    at 23:59 and resolves nothing else. *)
Definition resolve_oct3 (s : string) : option datetime :=
  match String.index 0 "Oct 3" s with
  | Some _ => Some oct3_2359
  | None => None
  end.

Definition no_resolver (s : string) : option datetime := None.

(** A clock that starts on September 20 at 08:00 and moves on by a
    microsecond from one task to the next. *)
Definition sample_clock (n : nat) : datetime := sep20_8am + Z.of_nat n.

Definition sample_uuid (n : nat) : string := "0a1b2c3d".

(** The invariant the data model states for a task. *)
Definition task_invariant (t : Task) : Prop :=
  1 <= priority t <= 5 ∧ ∀ e, est_minutes t = Some e → 1 <= e.

(** What every task made by the extractor satisfies: a priority from 1
    to 4 and an estimate that is present and not negative. *)
Definition extracted_ok (t : Task) : Prop :=
  1 <= priority t <= 4 ∧ ∃ e, est_minutes t = Some e ∧ 0 <= e.

Definition text_zero : string := "Review chapter 0 methods".

(** Three candidate lines: an estimate in minutes, a duration that
    rounds to nothing, and no duration at all. *)
Definition text_estimates : string := "Read chapter 4 (~45 min)
Study the summary 0.2m
Fix the bike".

Definition dup_tasks : list Task :=
  [ sample_task "Read A" 30 None 3; sample_task "x" 30 None 3;
    sample_task " read   a " 45 None 2 ].

(** ** The planner settings of the interface *)

(** The sidebar of [student_agent_app.py] sets
    [core.WORK_START = time(int(start_h), 0)] and
    [core.WORK_END = time(int(end_h), 0)], with [start_h] from 5 to 12
    and [end_h] from 13 to 23. *)
Definition ui_config (start_h end_h : Z) : Config :=
  {| WORK_START := mk_time start_h 0; WORK_END := mk_time end_h 0 |}.

Definition ui_hours (start_h end_h : Z) : Prop :=
  5 <= start_h <= 12 ∧ 13 <= end_h <= 23.

(** ** Working hours *)

(** An instant of the working day: at or after [WORK_START] and before
    [WORK_END], the two tests of [next_work_start]. *)
Definition in_hours (cfg : Config) (x : datetime) : Prop :=
  time_us (WORK_START cfg) <= time_of x < time_us (WORK_END cfg).

(** A block that lies within the working hours of one calendar date. *)
Definition block_in_hours (cfg : Config) (b : Block) : Prop :=
  block_ok cfg b ∧ date (start b) = date (end_ b).

(** ** What one task adds to the plan *)

(** The fields a block copies from its task, and its length: a whole
    number of minutes from 1 to [BLOCK_MINUTES]. *)
Definition block_of (t : Task) (b : Block) : Prop :=
  task_id b = id t ∧ blk_title b = block_title t ∧
  blk_due b = due t ∧ blk_source b = source t ∧
  end_ b - start b = minutes (block_minutes b) ∧
  1 <= block_minutes b <= BLOCK_MINUTES.

(** Between the loop state [s0] and the later state [s] the loop
    appended blocks of [t] only, and their minutes are what
    [remaining] lost. *)
Definition placed (t : Task) (s0 s : LoopState) : Prop :=
  ∃ new, blocks s = blocks s0 ++ new ∧ Forall (block_of t) new ∧
         Zsum (block_minutes <$> new) = remaining s0 - remaining s ∧
         0 <= remaining s.

(** A break of ten minutes lies between two blocks. *)
Definition break_between (b1 b2 : Block) : Prop :=
  end_ b1 + minutes 10 <= start b2.

(** Between [s0] and [s] the loop appended blocks in the order of time,
    none before the cursor of [s0], each followed by a break. *)
Definition in_order (s0 s : LoopState) : Prop :=
  ∃ new, blocks s = blocks s0 ++ new ∧ StronglySorted break_between new ∧
         Forall (λ b, cursor s0 <= start b ∧ start b < end_ b ∧
                      end_ b + minutes 10 <= cursor s) new ∧
         cursor s0 <= cursor s.

(** The blocks of the plan when the [for] loop is over: those of the
    last exit of the [while] loop. *)
Definition final_blocks (tr : list (LoopState * LoopState)) : list Block :=
  default [] ((λ p, blocks p.2) <$> last tr).

(** A block of a task of the list that starts between the first instant
    of work and the cutoff of its task. *)
Definition within_horizon (cfg : Config) (now : datetime) (tasks : list Task)
    (b : Block) : Prop :=
  ∃ t, t ∈ tasks ∧ task_id b = id t ∧
       next_work_start cfg now <= start b <= last_allowed_of now t.

(** A task whose cutoff, one hour before it is due, lies before the
    first instant of work: the [while] loop is not entered. *)
Definition past_cutoff (cfg : Config) (now : datetime) (t : Task) : bool :=
  match due t with
  | Some d => d - hours 1 <? next_work_start cfg now
  | None => false
  end.

(** The passes of the [while] loop for a task: one for every minute to
    place, and one for every date from the first day of work to the
    cutoff. *)
Definition passes_bound (cfg : Config) (now : datetime) (t : Task) : nat :=
  Z.to_nat (Z.max 30 (est_or_default t) +
            Z.max 0 (date (last_allowed_of now t)
                     - date (next_work_start cfg now) + 1)).

Definition task_overdue : Task :=
  sample_task "overdue" 90 (Some (now_8am + minutes 30)) 1.

(** ** All the inputs *)

Section Inputs.
Context (dateparser_parse : string → option datetime).
Context (now : nat → datetime) (uuid : nat → string).

(** The first loop of [extract_tasks_from_inputs] when [USE_LLM] is
    false, its value without an API key.  Every task made takes the next
    identifier and the next reading of the clock, so the extractor of
    one input goes on from the number of tasks made before it. *)
Fixpoint extract_inputs (raw_texts : list (string * string)) (all_tasks : list Task)
  : option (list Task) :=
  match raw_texts with
  | [] => Some all_tasks
  | (source_name, text) :: raw_texts' =>
      tasks ← rule_based_extract dateparser_parse
                (λ n, now (length all_tasks + n)%nat)
                (λ n, uuid (length all_tasks + n)%nat) text source_name;
      extract_inputs raw_texts' (all_tasks ++ tasks)
  end.

Definition extract_tasks_from_inputs (raw_texts : list (string * string))
  : option (list Task) :=
  dedupe <$> extract_inputs raw_texts [].
End Inputs.

(** A text of white space only: [text.strip()] is empty. *)
Fixpoint all_space (s : string) : bool :=
  match s with
  | EmptyString => true
  | String c s' => isspace c && all_space s'
  end.

(** The inputs the interface collects: [input_blobs] holds a text only
    when [txt.strip()] is not empty. *)
Definition input_blobs (raw_texts : list (string * string)) : Prop :=
  Forall (λ st, nonempty (strip st.2) = true) raw_texts.

(** [60 if unit.startswith('h') else 1], on the lower-cased unit. *)
Definition unit_factor (unit : string) : Q :=
  if startswith_h (lower unit) then 60 else 1.

(** What the estimate [e] of a line owes to the line: 60 without a
    match of [EST_PAT]; with a match of a numeral of value [x], nothing
    when [x] is zero, at least a minute when [x] times the factor of
    the unit is a minute or more, and at most one otherwise. *)
Definition est_from (ln : string) (e : Z) : Prop :=
  match search EST_PAT ln with
  | None => e = 60
  | Some m =>
      ∃ val unit x, group 1 m = Some val ∧ group 2 m = Some unit ∧
        float_of_str val = Some x ∧ 0 <= e ∧
        ((x == 0)%Q → e = 0) ∧
        ((1 <= x * unit_factor unit)%Q → 1 <= e) ∧
        ((x * unit_factor unit < 1)%Q → e <= 1)
  end.

(** The fields of a task as functions of its line, for the extractor
    reading the clock at [now] for this line, on the input named
    [source_name]. *)
Definition made_from (dateparser_parse : string → option datetime) (now : datetime)
    (source_name : string) (t : Task) : Prop :=
  is_candidate (title t) = true ∧
  due t = due_of dateparser_parse (title t) ∧
  priority t = priority_of now (due t) ∧
  (∃ e, est_minutes t = Some e ∧ est_from (title t) e) ∧
  tag t = group0 <$> search TAG_PAT (title t) ∧
  source t = Some source_name.

(** A task the extractor makes from one of the inputs, the [k] tasks
    made before that input having taken the first [k] readings of the
    clock and the first [k] identifiers. *)
Definition from_input (dateparser_parse : string → option datetime)
    (now : nat → datetime) (uuid : nat → string)
    (raw_texts : list (string * string)) (t : Task) : Prop :=
  ∃ source_name text k tasks,
    (source_name, text) ∈ raw_texts ∧
    rule_based_extract dateparser_parse (λ n, now (k + n)%nat)
      (λ n, uuid (k + n)%nat) text source_name = Some tasks ∧
    t ∈ tasks ∧ source t = Some source_name.

Definition two_inputs : list (string * string) :=
  [ ("pasted", "Read chapter 4 (~45 min)
Groceries"); ("notes.txt", "read   CHAPTER 4 (~45 min)
Fix the bike") ].

(** ** The order of the Notion listing *)

Section Sorted.
Context (key : Task → Z * datetime).

(** [sorted(items, key=key)] for a key that is a pair: the stable sort,
    as in [by_priority]. *)
Fixpoint insert_sorted (x : Task) (l : list Task) : list Task :=
  match l with
  | [] => [x]
  | y :: l' =>
      if key_lt (key y) (key x) then y :: insert_sorted x l' else x :: l
  end.

Definition sorted (items : list Task) : list Task := foldr insert_sorted [] items.
End Sorted.

Module Notion.
Section Listing.
(** [FAR_FUTURE = datetime(9999, 12, 31, tzinfo=APP_TZ)] on the wall
    clock of the model. *)
Context (FAR_FUTURE : datetime).

(** The inner function [sort_key] of [tasks_to_notion_md]. *)
Definition sort_key (x : Task) : Z * datetime :=
  (priority x, default FAR_FUTURE (due x)).

(** The tasks in the order in which [tasks_to_notion_md] lists them. *)
Definition listed (tasks : list Task) : list Task := sorted sort_key tasks.
End Listing.
End Notion.

(** Day 200 stands for the last day of year 9999 in the samples. *)
Definition sample_far_future : datetime := days 200.

(** ** What a pattern can match *)

Fixpoint all_chars (p : ascii → bool) (s : string) : bool :=
  match s with
  | EmptyString => true
  | String c s' => p c && all_chars p s'
  end.

(** The texts a pattern can match, the test of [\b] left out. *)
Fixpoint lang (r : regex) (s : string) : Prop :=
  match r with
  | Eps | WordB => s = EmptyString
  | Chr p => ∃ c, s = String c EmptyString ∧ p c = true
  | Seq r1 r2 => ∃ s1 s2, s = s1 +:+ s2 ∧ lang r1 s1 ∧ lang r2 s2
  | Alt r1 r2 => lang r1 s ∨ lang r2 s
  | Opt r1 => s = EmptyString ∨ lang r1 s
  | Rep p lo _ => all_chars p s = true ∧ (lo <= String.length s)%nat
  | Group _ r1 => lang r1 s
  end.

(** Group [n] takes part in every match of the pattern. *)
Fixpoint sets (n : nat) (r : regex) : bool :=
  match r with
  | Group m r1 => Nat.eqb m n || sets n r1
  | Seq r1 r2 => sets n r1 || sets n r2
  | Alt r1 r2 => sets n r1 && sets n r2
  | _ => false
  end.

(** The text of every group [n] of the pattern satisfies [Q n]. *)
Fixpoint groups_in (Q : nat → string → Prop) (r : regex) : Prop :=
  match r with
  | Group n r1 => (∀ s, lang r1 s → Q n s) ∧ groups_in Q r1
  | Seq r1 r2 | Alt r1 r2 => groups_in Q r1 ∧ groups_in Q r2
  | Opt r1 => groups_in Q r1
  | _ => True
  end.

(** A position of the subject, and a span of the subject whose text
    satisfies [Q]. *)
Definition at_cur (subj : string) (c : cur) : Prop :=
  ∃ pre, subj = pre +:+ rest c ∧ String.length pre = pos c.

Definition cap_in (subj : string) (Q : nat → string → Prop)
    (e : nat * (nat * nat)) : Prop :=
  ∃ pre mid post, subj = pre +:+ mid +:+ post ∧
    String.length pre = e.2.1 ∧ e.2.2 = (e.2.1 + String.length mid)%nat ∧
    Q e.1 mid.

Definition has_group (n : nat) (g : caps) : bool :=
  existsb (λ e, Nat.eqb e.1 n) g.

(** A numeral [float] converts, below the power of ten of its length. *)
Definition numeral (s : string) : Prop :=
  ∃ x, float_of_str s = Some x ∧ (0 <= x)%Q ∧
       (x < inject_Z (10 ^ Z.of_nat (String.length s)))%Q.

(** What the groups of [EST_PAT] hold: the first one a numeral. *)
Definition est_groups (n : nat) (s : string) : Prop :=
  n = 1%nat → numeral s.

Definition any_group (n : nat) (s : string) : Prop := True.

(** The longest line for which the estimate is shown to convert. *)
Definition MAX_LINE : nat := 300.

(** A pattern without groups. *)
Fixpoint plain (r : regex) : bool :=
  match r with
  | Group _ _ => false
  | Seq r1 r2 | Alt r1 r2 => plain r1 && plain r2
  | Opt r1 => plain r1
  | _ => true
  end.

(** The action verbs of the candidate test, as [VERB_PAT] lists them. *)
Definition ACTION_VERBS : list string :=
  ["assign"; "finish"; "read"; "solve"; "submit"; "implement"; "study";
   "review"; "fix"; "email"; "apply"; "prepare"; "meet"; "write"].

(** What the group of [VERB_PAT] holds: a verb in some letter case. *)
Definition verb_group (n : nat) (s : string) : Prop :=
  n = 1%nat → lower s ∈ ACTION_VERBS.

(** ** What the operations on titles mean *)

Definition first_char (s : string) : option ascii :=
  match s with String c _ => Some c | EmptyString => None end.

Fixpoint last_char (s : string) : option ascii :=
  match s with
  | EmptyString => None
  | String c EmptyString => Some c
  | String _ s' => last_char s'
  end.

(** [u] is [s] without the white space at its two ends. *)
Definition trimmed (s u : string) : Prop :=
  ∃ l r, s = l +:+ u +:+ r ∧ all_space l = true ∧ all_space r = true ∧
    (∀ c, first_char u = Some c → isspace c = false) ∧
    (∀ c, last_char u = Some c → isspace c = false).

(** [u] is [s] with every character in its lower-case form. *)
Definition lowered (s u : string) : Prop :=
  String.length u = String.length s ∧
  ∀ i c, String.get i s = Some c → String.get i u = Some (lower_char c).

(** [u] is [s] with every run of white space replaced by one space. *)
Inductive collapsed : string → string → Prop :=
| collapsed_nil : collapsed EmptyString EmptyString
| collapsed_char c s u :
    isspace c = false → collapsed s u → collapsed (String c s) (String c u)
| collapsed_run w s u :
    w ≠ EmptyString → all_space w = true →
    (∀ c, first_char s = Some c → isspace c = false) →
    collapsed s u → collapsed (w +:+ s) (String " " u).

(** [k] is the title [s] trimmed, then lower-cased, then with its
    white-space runs collapsed. *)
Definition normalised (s k : string) : Prop :=
  ∃ u1 u2, trimmed s u1 ∧ lowered u1 u2 ∧ collapsed u2 k.

(** [p] is made of the first [n] characters of [u], or of all of them
    when there are fewer. *)
Definition first_chars (n : nat) (u p : string) : Prop :=
  ∃ rest, u = p +:+ rest ∧ String.length p = Nat.min n (String.length u).

(** [b] is [p] with every line feed replaced by a space. *)
Definition newlines_replaced (p b : string) : Prop :=
  String.length b = String.length p ∧
  ∀ i c, String.get i p = Some c →
    String.get i b = Some (if (code c =? 10)%N then " "%char else c).

(** A text of 88 characters, 83 of them after trimming, without an
    action verb, and with a line feed among its first 60 characters. *)
Definition text_long : string :=
  "  Groceries and laundry
Call mom about the holiday plans, then book the train tickets   ".

(** A text of 61 characters that is 21 characters long once trimmed. *)
Definition text_padded : string :=
  "                                        Groceries and laundry".
(** ** Arithmetic on the wall clock *)

Ltac clock :=
  unfold next_work_start, replace_hms, replace_hm, time_us, date, time_of,
    days, hours, minutes, BLOCK_MINUTES, DAY, HOUR, MINUTE, SECOND in *.

Ltac clock_lia := clock; Z.div_mod_to_equations; lia.

Lemma Zsum_app (l k : list Z) : Zsum (l ++ k) = Zsum l + Zsum k.
Proof. induction l as [|x l IH]; simpl; [reflexivity | rewrite IH; lia]. Qed.

Lemma minutes_on_nil d : minutes_on d [] = 0.
Proof. reflexivity. Qed.

Lemma minutes_on_snoc d bs b :
  minutes_on d (bs ++ [b]) =
  minutes_on d bs + (if decide (date (start b) = d) then block_minutes b else 0).
Proof.
  unfold minutes_on. rewrite filter_app, fmap_app, Zsum_app. f_equal.
  rewrite filter_cons, filter_nil.
  destruct (decide (date (start b) = d)); simpl; lia.
Qed.

Lemma block_minutes_emitted c len i ti d src :
  block_minutes {| task_id := i; blk_title := ti; start := c;
                   end_ := c + minutes len; blk_due := d; blk_source := src |} = len.
Proof. unfold block_minutes; simpl. clock_lia. Qed.

Lemma int_of_Q_le (q : Q) : 0 < int_of_Q q → (inject_Z (int_of_Q q) <= q)%Q.
Proof.
  unfold int_of_Q. destruct q as [n d]; simpl. intros Hpos.
  assert (0 <= n) as Hn.
  { destruct (Z_lt_le_dec n 0) as [Hneg|]; [|assumption].
    pose proof (Z.quot_opp_l n (Z.pos d) ltac:(lia)) as Hq.
    pose proof (Z.quot_pos (- n) (Z.pos d) ltac:(lia) ltac:(lia)). lia. }
  rewrite Z.quot_div_nonneg by lia.
  apply (Qfloor_le (n # d)).
Qed.

(** ** Invariants of the two loops *)

Section LoopFacts.
Context (cfg : Config) (now : datetime) (daily_hours : Q).

Lemma while_loop_inv (P : LoopState → Prop) (t : Task) :
  (∀ s, P s → loop_cond now t s = true → P (loop_body cfg daily_hours t s)) →
  ∀ fuel s s', P s → while_loop cfg now daily_hours fuel t s = Some s' →
    P s' ∧ loop_cond now t s' = false.
Proof.
  intros Hstep fuel. induction fuel as [|fuel IH]; intros s s' HP; simpl;
    destruct (loop_cond now t s) eqn:Hc; intros Hrun; try discriminate.
  - injection Hrun as <-. auto.
  - eapply IH; [|exact Hrun]. auto.
  - injection Hrun as <-. auto.
Qed.

(** An invariant [J] of the outer loop, carried through the inner loop
    as [P t], for the tasks that satisfy [T]. *)
Lemma for_tasks_inv (T : Task → Prop) (J : gmap Z Z → list Block → Prop)
    (P : Task → LoopState → Prop) :
  (∀ t b bs, T t → J b bs → P t (task_entry cfg now t b bs)) →
  (∀ t s, P t s → loop_cond now t s = true → P t (loop_body cfg daily_hours t s)) →
  (∀ t s, P t s → J (day_budget s) (blocks s)) →
  ∀ fuel ts b bs tr out, Forall T ts → J b bs →
    for_tasks cfg now daily_hours fuel ts b bs = Some (tr, out) →
    ∃ b', J b' out.
Proof.
  intros Hentry Hstep Hexit fuel ts.
  induction ts as [|t ts IH]; intros b bs tr out HT HJ; simpl.
  - intros [= <- <-]. eauto.
  - destruct (while_loop cfg now daily_hours fuel t (task_entry cfg now t b bs))
      as [s|] eqn:Hw; [|discriminate].
    destruct (for_tasks cfg now daily_hours fuel ts (day_budget s) (blocks s))
      as [[tr' out']|] eqn:Hf; [|discriminate].
    intros [= <- <-]. inversion HT as [|? ? Ht HTs]; subst.
    eapply (IH _ _ _ _ HTs); [|exact Hf].
    apply (Hexit t).
    eapply (while_loop_inv (P t) t (Hstep t)); [|exact Hw]. auto.
Qed.
End LoopFacts.

(** ** The daily cap *)

Section DailyCap.
Context (cfg : Config) (now : datetime) (daily_hours : Q).

(** The accumulator [day_budget] holds, for every date, the minutes of
    the blocks that start on it, and no date exceeds the cap. *)
Definition budget_inv (budget : gmap Z Z) (bs : list Block) : Prop :=
  (∀ d, default 0 (budget !! d) = minutes_on d bs) ∧
  (∀ d, minutes_on d bs <= Z.max 0 (cap_of daily_hours)) ∧
  (bs ≠ [] → 0 < cap_of daily_hours) ∧
  Forall (λ b, end_ b - start b = minutes (block_minutes b)) bs.

Lemma budget_inv_step t s :
  budget_inv (day_budget s) (blocks s) → loop_cond now t s = true →
  budget_inv (day_budget (loop_body cfg daily_hours t s))
             (blocks (loop_body cfg daily_hours t s)).
Proof.
  intros (Hb & Hcap & Hne & Hex) Hc. unfold loop_cond in Hc.
  apply andb_true_iff in Hc as [Hrem _]. apply Z.ltb_lt in Hrem.
  unfold loop_body.
  destruct (cap_of daily_hours <=? default 0 (day_budget s !! date (cursor s)))
    eqn:Hfull; simpl; [repeat split; auto|].
  apply Z.leb_gt in Hfull.
  match goal with |- context [?a <? ?b] => destruct (a <? b) eqn:Hend end;
    simpl; [repeat split; auto|].
  set (used := default 0 (day_budget s !! date (cursor s))) in *.
  set (len := Z.min (Z.min BLOCK_MINUTES (remaining s)) (cap_of daily_hours - used)).
  assert (1 <= len <= cap_of daily_hours - used) as Hlen
    by (unfold len, BLOCK_MINUTES; lia).
  repeat split.
  - intros d. rewrite minutes_on_snoc, block_minutes_emitted. simpl.
    destruct (decide (date (cursor s) = d)) as [<-|Hd].
    + rewrite lookup_insert_eq. simpl. fold used. rewrite <- Hb. fold used. lia.
    + rewrite lookup_insert_ne by assumption. rewrite Hb. lia.
  - intros d. rewrite minutes_on_snoc, block_minutes_emitted. simpl.
    destruct (decide (date (cursor s) = d)) as [<-|Hd].
    + rewrite <- Hb. fold used. lia.
    + specialize (Hcap d). lia.
  - intros _. destruct (blocks s) as [|b0 bs0] eqn:Hbs.
    + specialize (Hb (date (cursor s))). rewrite minutes_on_nil in Hb.
      fold used in Hb. lia.
    + apply Hne. discriminate.
  - apply Forall_app. split; [assumption|].
    constructor; [|constructor]. rewrite block_minutes_emitted. simpl. lia.
Qed.

Lemma plan_blocks_budget_inv fuel tasks bs :
  plan_blocks cfg now daily_hours fuel tasks = Some bs →
  ∃ budget, budget_inv budget bs.
Proof.
  unfold plan_blocks. intros Hrun.
  destruct (for_tasks cfg now daily_hours fuel (by_priority now tasks) ∅ [])
    as [[tr out]|] eqn:Hf; [|discriminate].
  injection Hrun as <-.
  eapply (for_tasks_inv cfg now daily_hours (λ _, True) budget_inv
            (λ _ s, budget_inv (day_budget s) (blocks s)));
    [ | | | | | exact Hf]; auto using budget_inv_step.
  - apply Forall_forall; auto.
  - repeat split; intros; try rewrite lookup_empty; try rewrite minutes_on_nil;
      simpl; try lia; try congruence. constructor.
Qed.
End DailyCap.

(** ** The processing order *)

Lemma key_lt_spec k1 k2 :
  key_lt k1 k2 = true ↔ k1.1 < k2.1 ∨ (k1.1 = k2.1 ∧ k1.2 < k2.2).
Proof.
  unfold key_lt. rewrite orb_true_iff, andb_true_iff, !Z.ltb_lt, Z.eqb_eq.
  reflexivity.
Qed.

Lemma key_lt_false k1 k2 : key_lt k2 k1 = false ↔ key_le k1 k2.
Proof.
  unfold key_le. destruct (key_lt k2 k1) eqn:E.
  - apply key_lt_spec in E. split; [discriminate | lia].
  - split; [intros _ | reflexivity].
    assert (¬ (k2.1 < k1.1 ∨ (k2.1 = k1.1 ∧ k2.2 < k1.2))) as Hn.
    { intros H. apply key_lt_spec in H. congruence. }
    lia.
Qed.

Lemma key_le_trans k1 k2 k3 : key_le k1 k2 → key_le k2 k3 → key_le k1 k3.
Proof. unfold key_le. lia. Qed.

Lemma insert_by_perm now x l : insert_by now x l ≡ₚ x :: l.
Proof.
  induction l as [|y l IH]; simpl; [reflexivity|].
  destruct (key_lt (sort_key now y) (sort_key now x)); [|reflexivity].
  rewrite IH. apply Permutation_swap.
Qed.

Lemma by_priority_perm now tasks : by_priority now tasks ≡ₚ tasks.
Proof.
  induction tasks as [|t tasks IH]; simpl; [reflexivity|].
  rewrite insert_by_perm. by rewrite IH.
Qed.

Lemma insert_by_sorted now x l :
  StronglySorted (λ a b, key_le (sort_key now a) (sort_key now b)) l →
  StronglySorted (λ a b, key_le (sort_key now a) (sort_key now b)) (insert_by now x l).
Proof.
  induction 1 as [|y l Hs IH Hy]; simpl.
  - repeat constructor.
  - destruct (key_lt (sort_key now y) (sort_key now x)) eqn:E.
    + constructor; [assumption|].
      rewrite insert_by_perm. constructor; [|assumption].
      apply key_lt_spec in E. unfold key_le. lia.
    + apply key_lt_false in E. constructor; [by constructor|].
      constructor; [assumption|].
      eapply Forall_impl; [exact Hy|]. intros z Hz. simpl in Hz.
      eapply key_le_trans; eassumption.
  Qed.

Lemma by_priority_sorted now tasks :
  StronglySorted (λ a b, key_le (sort_key now a) (sort_key now b))
    (by_priority now tasks).
Proof.
  induction tasks as [|t tasks IH]; simpl; [constructor|].
  by apply insert_by_sorted.
Qed.

Lemma insert_by_filter now k x l :
  filter (λ t, sort_key now t = k) (insert_by now x l) =
  filter (λ t, sort_key now t = k) (x :: l).
Proof.
  induction l as [|y l IH]; simpl; [reflexivity|].
  destruct (key_lt (sort_key now y) (sort_key now x)) eqn:E; [|reflexivity].
  rewrite (filter_cons _ y), IH, !filter_cons.
  destruct (decide (sort_key now y = k)) as [Hy|]; [|reflexivity].
  destruct (decide (sort_key now x = k)) as [Hx|]; [|reflexivity].
  apply key_lt_spec in E. rewrite Hy, Hx in E. lia.
Qed.

Lemma sorted_lookup {A} (R : A → A → Prop) (l : list A) i j a b :
  StronglySorted R l → l !! i = Some a → l !! j = Some b → (i < j)%nat → R a b.
Proof.
  intros Hs. revert i j. induction Hs as [|x l Hs IH Hx]; intros i j Ha Hb Hij.
  - discriminate.
  - destruct j as [|j]; [lia|]. destruct i as [|i]; simpl in *.
    + injection Ha as <-. apply (proj1 (Forall_forall _ _) Hx).
      eapply list_elem_of_lookup_2. exact Hb.
    + apply (IH i j); auto. lia.
Qed.

Lemma by_priority_filter now k tasks :
  filter (λ t, sort_key now t = k) (by_priority now tasks) =
  filter (λ t, sort_key now t = k) tasks.
Proof.
  induction tasks as [|t tasks IH]; simpl; [reflexivity|].
  rewrite insert_by_filter, !filter_cons, IH. reflexivity.
Qed.

(** ** Blocks and deadlines *)

Section Deadlines.
Context (cfg : Config) (now : datetime) (daily_hours : Q) (tasks : list Task).

(** A block belongs to a task of the list and ends by its due date. *)
Definition owned (b : Block) : Prop :=
  ∃ t, t ∈ tasks ∧ task_id b = id t ∧ blk_due b = due t ∧
       ∀ d, due t = Some d → end_ b <= d.

Lemma owned_step t s :
  t ∈ tasks → Forall owned (blocks s) → loop_cond now t s = true →
  Forall owned (blocks (loop_body cfg daily_hours t s)).
Proof.
  intros Ht Hall Hc. unfold loop_cond in Hc.
  apply andb_true_iff in Hc as [Hrem Hcur].
  apply Z.ltb_lt in Hrem. apply Z.leb_le in Hcur.
  unfold loop_body.
  destruct (cap_of daily_hours <=? _); simpl; [assumption|].
  match goal with |- context [?a <? ?b] => destruct (a <? b) end;
    simpl; [assumption|].
  apply Forall_app. split; [assumption|]. constructor; [|constructor].
  exists t. simpl. repeat split; try assumption.
  intros d Hd. unfold last_allowed_of in Hcur. rewrite Hd in Hcur.
  clock_lia.
Qed.

Lemma plan_blocks_owned fuel bs :
  plan_blocks cfg now daily_hours fuel tasks = Some bs → Forall owned bs.
Proof.
  unfold plan_blocks. intros Hrun.
  destruct (for_tasks cfg now daily_hours fuel (by_priority now tasks) ∅ [])
    as [[tr out]|] eqn:Hf; [|discriminate].
  injection Hrun as <-.
  destruct (for_tasks_inv cfg now daily_hours (λ t, t ∈ tasks)
              (λ _ bs, Forall owned bs)
              (λ t s, t ∈ tasks ∧ Forall owned (blocks s)))
    with (6 := Hf) as [_ H]; auto.
  - intros t s [Ht Hs] Hc. split; [assumption|]. by apply owned_step.
  - intros t s [_ Hs]. exact Hs.
  - apply Forall_forall. intros t Ht. by rewrite <- (by_priority_perm now tasks).
Qed.
End Deadlines.

(** ** Progress and termination *)

Section Termination.
Context (cfg : Config) (now : datetime) (daily_hours : Q).
Hypothesis Hcfg : valid_config cfg.

(** "advance to next day start" lands on the following date. *)
Lemma next_day_date c : date (next_day cfg c) = date c + 1 ∧ c < next_day cfg c.
Proof.
  destruct Hcfg as ((Hs1 & Hs2) & (He1 & He2) & Hle). unfold next_day.
  unfold next_work_start.
  repeat match goal with |- context [?a <? ?b] => destruct (Z.ltb_spec a b) end;
  repeat match goal with |- context [?a <=? ?b] => destruct (Z.leb_spec a b) end;
  clock_lia.
Qed.

Lemma loop_body_progress t s :
  loop_cond now t s = true →
  cursor s < cursor (loop_body cfg daily_hours t s) ∧
  (remaining (loop_body cfg daily_hours t s) < remaining s ∨
   (remaining (loop_body cfg daily_hours t s) = remaining s ∧
    date (cursor (loop_body cfg daily_hours t s)) = date (cursor s) + 1)).
Proof.
  intros Hc. unfold loop_cond in Hc.
  apply andb_true_iff in Hc as [Hrem _]. apply Z.ltb_lt in Hrem.
  pose proof (next_day_date (cursor s)) as [Hd Hlt].
  unfold loop_body.
  destruct (Z.leb_spec (cap_of daily_hours)
              (default 0 (day_budget s !! date (cursor s)))); simpl; [auto|].
  match goal with |- context [?a <? ?b] => destruct (a <? b) end; simpl; [auto|].
  unfold BLOCK_MINUTES, minutes, MINUTE, SECOND. lia.
Qed.

Lemma loop_measure_decreases t s :
  loop_cond now t s = true →
  (loop_measure now t (loop_body cfg daily_hours t s) < loop_measure now t s)%nat.
Proof.
  intros Hc. pose proof (loop_body_progress t s Hc) as [Hcur Hrem].
  unfold loop_cond in Hc. apply andb_true_iff in Hc as [Hpos Hla].
  apply Z.ltb_lt in Hpos. apply Z.leb_le in Hla.
  unfold loop_measure.
  assert (date (cursor s) <= date (last_allowed_of now t)) by clock_lia.
  assert (date (cursor s) <= date (cursor (loop_body cfg daily_hours t s)))
    by clock_lia.
  lia.
Qed.

Lemma while_loop_terminates t fuel s :
  (loop_measure now t s <= fuel)%nat →
  ∃ s', while_loop cfg now daily_hours fuel t s = Some s'.
Proof.
  revert s. induction fuel as [|fuel IH]; intros s Hm; simpl;
    destruct (loop_cond now t s) eqn:Hc; eauto.
  - exfalso. unfold loop_cond in Hc. apply andb_true_iff in Hc as [Hpos Hla].
    apply Z.ltb_lt in Hpos. unfold loop_measure in Hm. lia.
  - apply IH. pose proof (loop_measure_decreases t s Hc). lia.
Qed.
End Termination.

Lemma while_loop_fuel_mono cfg now daily_hours t fuel fuel' s s' :
  (fuel <= fuel')%nat →
  while_loop cfg now daily_hours fuel t s = Some s' →
  while_loop cfg now daily_hours fuel' t s = Some s'.
Proof.
  revert fuel' s. induction fuel as [|fuel IH]; intros fuel' s Hle; simpl;
    destruct fuel' as [|fuel']; simpl; destruct (loop_cond now t s);
    try discriminate; auto; try lia.
  apply IH. lia.
Qed.

Lemma for_tasks_fuel_mono cfg now daily_hours fuel fuel' ts b bs r :
  (fuel <= fuel')%nat →
  for_tasks cfg now daily_hours fuel ts b bs = Some r →
  for_tasks cfg now daily_hours fuel' ts b bs = Some r.
Proof.
  intros Hle. revert b bs r. induction ts as [|t ts IH]; intros b bs r; simpl; [auto|].
  destruct (while_loop cfg now daily_hours fuel t (task_entry cfg now t b bs))
    as [s|] eqn:Hw; [|discriminate].
  rewrite (while_loop_fuel_mono _ _ _ _ _ _ _ _ Hle Hw).
  destruct (for_tasks cfg now daily_hours fuel ts (day_budget s) (blocks s))
    as [[tr out]|] eqn:Hf; [|discriminate].
  rewrite (IH _ _ _ Hf). auto.
Qed.

Lemma for_tasks_terminates cfg now daily_hours ts :
  valid_config cfg →
  ∃ fuel, ∀ b bs, ∃ r, for_tasks cfg now daily_hours fuel ts b bs = Some r.
Proof.
  intros Hcfg. induction ts as [|t ts [fuel IH]].
  - exists O. simpl. eauto.
  - set (m := loop_measure now t (task_entry cfg now t ∅ [])).
    exists (Nat.max m fuel). intros b bs. simpl.
    destruct (while_loop_terminates cfg now daily_hours Hcfg t (Nat.max m fuel)
                (task_entry cfg now t b bs)) as [s Hs].
    { unfold loop_measure, task_entry; simpl. unfold m, loop_measure; simpl. lia. }
    rewrite Hs. destruct (IH (day_budget s) (blocks s)) as [[tr out] Hr].
    rewrite (for_tasks_fuel_mono _ _ _ fuel (Nat.max m fuel) _ _ _ _ ltac:(lia) Hr).
    eauto.
Qed.

(** ** The recorded entries *)

Lemma for_tasks_trace cfg now daily_hours fuel ts b bs tr out :
  for_tasks cfg now daily_hours fuel ts b bs = Some (tr, out) →
  length tr = length ts ∧
  Forall (λ p, cursor p.1 = next_work_start cfg now) tr ∧
  (∀ p, tr !! 0%nat = Some p → day_budget p.1 = b ∧ blocks p.1 = bs) ∧
  (∀ i p q, tr !! i = Some p → tr !! S i = Some q →
     day_budget q.1 = day_budget p.2 ∧ blocks q.1 = blocks p.2).
Proof.
  revert b bs tr out. induction ts as [|t ts IH]; intros b bs tr out; simpl.
  - intros [= <- <-]. repeat split; auto; intros; discriminate.
  - destruct (while_loop cfg now daily_hours fuel t (task_entry cfg now t b bs))
      as [s|] eqn:Hw; [|discriminate].
    destruct (for_tasks cfg now daily_hours fuel ts (day_budget s) (blocks s))
      as [[tr' out']|] eqn:Hf; [|discriminate].
    intros [= <- <-]. destruct (IH _ _ _ _ Hf) as (Hlen & Hcur & Hfirst & Hnext).
    split; [|split; [|split]].
    + simpl. by rewrite Hlen.
    + constructor; [reflexivity | assumption].
    + intros p [= <-]. split; reflexivity.
    + intros i p q Hp Hq. destruct i as [|i]; simpl in *.
      * injection Hp as <-. simpl. by apply Hfirst.
      * by apply (Hnext i p q).
Qed.


(** ** De-duplication *)

Lemma dedupe_loop_snoc l t seen acc :
  dedupe_loop (l ++ [t]) seen acc =
  if decide (title_key t ∈ seen ∨ title_key t ∈ title_key <$> l)
  then dedupe_loop l seen acc
  else dedupe_loop l seen acc ++ [t].
Proof.
  revert seen acc. induction l as [|x l IH]; intros seen acc; simpl.
  - destruct (decide (title_key t ∈ seen)) as [Hin|Hout];
      destruct (decide _) as [H|H]; try reflexivity.
    + exfalso. apply H. by left.
    + exfalso. destruct H as [H|H]; [done | by apply elem_of_nil in H].
  - destruct (decide (title_key x ∈ seen)) as [Hx|Hx]; rewrite IH.
    + destruct (decide _) as [H|H]; destruct (decide _) as [H'|H']; try reflexivity.
      * exfalso. apply H'. destruct H as [H|H]; [by left | right; by right].
      * exfalso. apply H. destruct H' as [H'|H']; [by left|].
        apply elem_of_cons in H' as [->|H']; [by left | by right].
    + destruct (decide _) as [H|H]; destruct (decide _) as [H'|H']; try reflexivity.
      * exfalso. apply H'. destruct H as [H|H]; [|right; by right].
        apply elem_of_union in H as [H|H]; [|by left].
        apply elem_of_singleton in H. right. rewrite H. by left.
      * exfalso. apply H. destruct H' as [H'|H'].
        -- left. apply elem_of_union. by right.
        -- apply elem_of_cons in H' as [->|H']; [|by right].
           left. apply elem_of_union. left. by apply elem_of_singleton.
Qed.

Lemma dedupe_snoc l t :
  dedupe (l ++ [t]) =
  if decide (title_key t ∈ title_key <$> l) then dedupe l else dedupe l ++ [t].
Proof.
  unfold dedupe. rewrite dedupe_loop_snoc.
  destruct (decide _) as [H|H]; destruct (decide _) as [H'|H']; try reflexivity.
  - exfalso. destruct H as [H|H]; [by apply elem_of_empty in H | done].
  - exfalso. apply H. by right.
Qed.

Lemma dedupe_sublist l : dedupe l `sublist_of` l.
Proof.
  induction l as [|t l IH] using rev_ind; [constructor|].
  rewrite dedupe_snoc. destruct (decide _).
  - by apply sublist_inserts_r.
  - by apply sublist_app.
Qed.

Lemma dedupe_keys_sub l k : k ∈ title_key <$> dedupe l → k ∈ title_key <$> l.
Proof.
  intros Hk. apply list_elem_of_fmap in Hk as (t & -> & Ht).
  apply list_elem_of_fmap. exists t. split; [reflexivity|].
  eapply elem_of_sublist; [exact Ht | apply dedupe_sublist].
Qed.

Lemma dedupe_keys_nodup l : NoDup (title_key <$> dedupe l).
Proof.
  induction l as [|t l IH] using rev_ind; [constructor|].
  rewrite dedupe_snoc. destruct (decide _) as [H|H]; [assumption|].
  rewrite fmap_app. apply NoDup_app. split; [assumption|]. split.
  - intros k Hk Hk'. apply list_elem_of_singleton in Hk'. subst k.
    apply H. by apply dedupe_keys_sub.
  - simpl. apply NoDup_singleton.
Qed.

Lemma dedupe_keys_cover l k : k ∈ title_key <$> l → k ∈ title_key <$> dedupe l.
Proof.
  induction l as [|t l IH] using rev_ind; [done|].
  rewrite fmap_app, dedupe_snoc. intros Hk.
  apply elem_of_app in Hk as [Hk|Hk].
  - destruct (decide _); [by apply IH|]. rewrite fmap_app. apply elem_of_app. left. by apply IH.
  - apply list_elem_of_singleton in Hk. subst k.
    destruct (decide _) as [H|H]; [by apply IH|].
    rewrite fmap_app. apply elem_of_app. right. by apply list_elem_of_singleton.
Qed.

Lemma dedupe_fixed l : NoDup (title_key <$> l) → dedupe l = l.
Proof.
  induction l as [|t l IH] using rev_ind; [reflexivity|].
  rewrite fmap_app. intros Hnd. apply NoDup_app in Hnd as (Hl & Hdis & _).
  rewrite dedupe_snoc. destruct (decide _) as [H|H].
  - exfalso. apply (Hdis _ H). by apply list_elem_of_singleton.
  - by rewrite IH.
Qed.

(** ** Extraction *)

Lemma extract_lines_no_candidate parse now uuid src lines acc :
  Forall (λ ln, is_candidate ln = false) lines →
  extract_lines parse now uuid src lines acc = Some acc.
Proof.
  induction 1 as [|ln lines Hln _ IH]; simpl; [reflexivity|]. by rewrite Hln.
Qed.

Lemma read_digits_nonneg s acc n :
  0 <= acc → 0 <= (read_digits s acc n).1.1.
Proof.
  revert acc n. induction s as [|c s IH]; intros acc n Hacc; simpl; [assumption|].
  destruct (isdigit c); [|assumption]. apply IH. lia.
Qed.

Lemma float_of_str_nonneg s x : float_of_str s = Some x → (0 <= x)%Q.
Proof.
  unfold float_of_str.
  pose proof (read_digits_nonneg s 0 0 ltac:(lia)) as Hi.
  destruct (read_digits s 0 0) as [[i ni] r]. simpl in Hi.
  destruct ni as [|ni]; [discriminate|].
  destruct r as [|c r'].
  - intros [= <-]. unfold Qle. simpl. lia.
  - destruct (code c =? 46)%N; [|discriminate].
    pose proof (read_digits_nonneg r' 0 0 ltac:(lia)) as Hf.
    destruct (read_digits r' 0 0) as [[f nf] r'']. simpl in Hf.
    destruct nf as [|nf]; [discriminate|]. destruct r''; [|discriminate].
    intros [= <-].
    assert (0 < 10 ^ Z.of_nat (S nf)) as Hp by (apply Z.pow_pos_nonneg; lia).
    apply Qle_shift_div_l.
    + unfold Qlt. simpl. lia.
    + rewrite Qmult_0_l. unfold Qle. simpl. nia.
Qed.

Lemma round_half_even_nonneg x : (0 <= x)%Q → 0 <= round_half_even x.
Proof.
  intros Hx. unfold round_half_even.
  assert (0 <= Qfloor x) as Hf.
  { change 0 with (Qfloor (inject_Z 0)) at 1. by apply Qfloor_resp_le. }
  destruct (_ ?= _)%Q; [destruct (Z.even _)| |]; lia.
Qed.

Lemma estimate_nonneg ln e : estimate ln = Some e → 0 <= e.
Proof.
  unfold estimate. destruct (search EST_PAT ln) as [m|]; [|intros [= <-]; lia].
  destruct (group 1 m) as [val|]; [|discriminate]. simpl.
  destruct (group 2 m) as [unit|]; [|discriminate]. simpl.
  destruct (float_of_str val) as [x|] eqn:Hx; [|discriminate]. simpl.
  apply float_of_str_nonneg in Hx. unfold int_round.
  destruct (Qle_bool _ _); [discriminate|]. intros [= <-].
  apply round_half_even_nonneg.
  destruct (startswith_h _).
  - apply Qmult_le_0_compat; [assumption | discriminate].
  - apply Qmult_le_0_compat; [assumption | discriminate].
Qed.

Lemma priority_of_range now due : 1 <= priority_of now due <= 4.
Proof.
  unfold priority_of. destruct due as [d|]; [|lia].
  repeat match goal with |- context [if ?b then _ else _] => destruct b end; lia.
Qed.

Lemma extract_lines_ok parse now uuid src lines acc tasks :
  Forall extracted_ok acc →
  extract_lines parse now uuid src lines acc = Some tasks →
  Forall extracted_ok tasks.
Proof.
  revert acc. induction lines as [|ln lines IH]; intros acc Hacc; simpl.
  - by intros [= <-].
  - destruct (is_candidate ln); [|by apply IH].
    unfold task_of_line.
    destruct (estimate ln) as [e|] eqn:He; [|discriminate]. simpl.
    apply IH. apply Forall_app. split; [assumption|].
    constructor; [|constructor]. split; simpl.
    + apply priority_of_range.
    + exists e. split; [reflexivity|]. by apply estimate_nonneg in He.
Qed.

(** ** Estimates *)

Lemma round_half_even_bounds q :
  Qfloor q <= round_half_even q <= Qfloor q + 1.
Proof.
  unfold round_half_even.
  destruct (_ ?= _)%Q; [destruct (Z.even _)| |]; lia.
Qed.

Lemma round_half_even_zero q : (q == 0)%Q → round_half_even q = 0.
Proof.
  intros Hq. unfold round_half_even.
  assert (Qfloor q = 0) as ->.
  { rewrite (Qfloor_comp q 0 Hq). reflexivity. }
  destruct (Qcompare_spec (q - inject_Z 0) (1 # 2)) as [He|_|Hg];
    [exfalso | reflexivity | exfalso].
  - rewrite Hq in He. vm_compute in He. discriminate He.
  - rewrite Hq in Hg. vm_compute in Hg. discriminate Hg.
Qed.

Lemma estimate_est_from ln e : estimate ln = Some e → est_from ln e.
Proof.
  unfold estimate, est_from.
  destruct (search EST_PAT ln) as [m|]; [|by intros [= <-]].
  destruct (group 1 m) as [val|]; [|discriminate]. simpl.
  destruct (group 2 m) as [unit|]; [|discriminate]. simpl.
  destruct (float_of_str val) as [x|] eqn:Hx; [|discriminate]. simpl.
  fold (unit_factor unit). unfold int_round.
  destruct (Qle_bool _ _); [discriminate|]. intros [= <-].
  exists val, unit, x. split; [reflexivity|]. split; [reflexivity|].
  split; [exact Hx|].
  assert (0 <= x * unit_factor unit)%Q as Hpos.
  { apply Qmult_le_0_compat; [by apply float_of_str_nonneg in Hx|].
    unfold unit_factor. destruct (startswith_h _); discriminate. }
  pose proof (round_half_even_bounds (x * unit_factor unit)) as Hb.
  split; [by apply round_half_even_nonneg|]. split; [|split].
  - intros H0. apply round_half_even_zero. rewrite H0. apply Qmult_0_l.
  - intros H1. apply Qfloor_resp_le in H1. change (Qfloor 1) with 1 in H1. lia.
  - intros H1. assert (Qfloor (x * unit_factor unit) < 1); [|lia].
    rewrite Zlt_Qlt. eapply Qle_lt_trans; [apply Qfloor_le | exact H1].
Qed.

Lemma existsb_false_filter {A} (f : A → bool) (l : list A) :
  existsb f l = false → List.filter f l = [].
Proof.
  induction l as [|x l IH]; simpl; [reflexivity|]. intros H.
  apply orb_false_iff in H as [-> Hl]. by apply IH.
Qed.

(** ** Snapping to working hours *)

Ltac snap_cases :=
  unfold next_work_start;
  repeat match goal with |- context [?a <? ?b] => destruct (Z.ltb_spec a b) end;
  repeat match goal with |- context [?a <=? ?b] => destruct (Z.leb_spec a b) end.

Lemma next_work_start_time cfg x :
  valid_config cfg →
  time_us (WORK_START cfg) <= time_of (next_work_start cfg x) <= time_us (WORK_END cfg).
Proof.
  intros ((Hs1 & Hs2) & (He1 & He2) & Hle). snap_cases; clock_lia.
Qed.

Lemma next_work_start_ge cfg x : valid_config cfg → x <= next_work_start cfg x.
Proof.
  intros ((Hs1 & Hs2) & (He1 & He2) & Hle). snap_cases; clock_lia.
Qed.

Lemma next_work_start_in_hours cfg x :
  valid_config cfg → time_us (WORK_START cfg) < time_us (WORK_END cfg) →
  in_hours cfg (next_work_start cfg x).
Proof.
  intros ((Hs1 & Hs2) & (He1 & He2) & Hle) Hlt. unfold in_hours.
  snap_cases; clock_lia.
Qed.

Lemma next_work_start_lower cfg x y :
  valid_config cfg → x <= y → in_hours cfg y → next_work_start cfg x <= y.
Proof.
  intros ((Hs1 & Hs2) & (He1 & He2) & Hle) Hxy [Hy1 Hy2].
  snap_cases; clock_lia.
Qed.

Lemma next_work_start_fixed cfg x : in_hours cfg x → next_work_start cfg x = x.
Proof. intros [H1 H2]. snap_cases; try reflexivity; lia. Qed.

Lemma ui_config_valid start_h end_h :
  ui_hours start_h end_h → valid_config (ui_config start_h end_h).
Proof.
  intros [Hs He]. unfold valid_config, valid_time, ui_config; simpl.
  repeat split; try lia.
  unfold time_us; simpl. unfold hours, minutes, HOUR, MINUTE, SECOND. lia.
Qed.

(** ** The entries of the trace and the tasks *)

Lemma for_tasks_lookup cfg now daily_hours fuel ts b bs tr out i t p :
  for_tasks cfg now daily_hours fuel ts b bs = Some (tr, out) →
  ts !! i = Some t → tr !! i = Some p →
  (∃ b' bs', p.1 = task_entry cfg now t b' bs') ∧
  while_loop cfg now daily_hours fuel t p.1 = Some p.2.
Proof.
  revert b bs tr out i. induction ts as [|t0 ts IH]; intros b bs tr out i; simpl.
  - intros _ Hi. discriminate.
  - destruct (while_loop cfg now daily_hours fuel t0 (task_entry cfg now t0 b bs))
      as [s|] eqn:Hw; [|discriminate].
    destruct (for_tasks cfg now daily_hours fuel ts (day_budget s) (blocks s))
      as [[tr' out']|] eqn:Hf; [|discriminate].
    intros [= <- <-] Hi Hp. destruct i as [|i]; simpl in *.
    + injection Hi as <-. injection Hp as <-. simpl. eauto.
    + eapply IH; eauto.
Qed.

Lemma for_tasks_final cfg now daily_hours fuel ts b bs tr out :
  for_tasks cfg now daily_hours fuel ts b bs = Some (tr, out) →
  out = default bs ((λ p, blocks p.2) <$> last tr).
Proof.
  revert b bs tr out. induction ts as [|t ts IH]; intros b bs tr out; simpl.
  - intros [= <- <-]. reflexivity.
  - destruct (while_loop cfg now daily_hours fuel t (task_entry cfg now t b bs))
      as [s|] eqn:Hw; [|discriminate].
    destruct (for_tasks cfg now daily_hours fuel ts (day_budget s) (blocks s))
      as [[tr' out']|] eqn:Hf; [|discriminate].
    intros [= <- <-]. rewrite (IH _ _ _ _ Hf). rewrite last_cons.
    destruct (last tr'); reflexivity.
Qed.

(** ** Blocks within working hours *)

Section WorkingHours.
Context (cfg : Config) (now : datetime) (daily_hours : Q).
Hypothesis Hcfg : valid_config cfg.
Hypothesis Hend : time_us (WORK_END cfg) + minutes 60 < DAY.

Definition hours_inv (s : LoopState) : Prop :=
  time_us (WORK_START cfg) <= time_of (cursor s)
    <= time_us (WORK_END cfg) + minutes 10 ∧
  Forall (block_in_hours cfg) (blocks s).

Lemma hours_inv_step t s :
  hours_inv s → loop_cond now t s = true → hours_inv (loop_body cfg daily_hours t s).
Proof.
  intros [Hcur Hbs] Hc. unfold loop_cond in Hc.
  apply andb_true_iff in Hc as [Hrem _]. apply Z.ltb_lt in Hrem.
  pose proof (next_work_start_time cfg
    (replace_hm (cursor s) (hour (WORK_END cfg)) (minute (WORK_END cfg)) + minutes 1)
    Hcfg) as Hnext.
  assert (0 <= minutes 10) as H10 by (unfold minutes, MINUTE, SECOND; lia).
  unfold loop_body, hours_inv.
  destruct (Z.leb_spec (cap_of daily_hours)
              (default 0 (day_budget s !! date (cursor s)))) as [|Hused]; simpl.
  { split; [unfold next_day; lia | assumption]. }
  set (len := Z.min (Z.min BLOCK_MINUTES (remaining s))
                (cap_of daily_hours - default 0 (day_budget s !! date (cursor s)))).
  assert (1 <= len <= 50) as Hlen by (unfold len, BLOCK_MINUTES; lia).
  destruct (Z.ltb_spec (time_us (WORK_END cfg)) (time_of (cursor s + minutes len)))
    as [|Hfit]; simpl.
  { split; [unfold next_day; lia | assumption]. }
  destruct Hcfg as ((Hs1 & Hs2) & (He1 & He2) & Hle).
  split.
  - clear Hnext Hbs. clock_lia.
  - apply Forall_app. split; [assumption|]. constructor; [|constructor].
    unfold block_in_hours, block_ok; simpl. clear Hnext Hbs.
    split; [split; [|split; [|split]]|]; clock_lia.
Qed.

Lemma plan_blocks_hours fuel tasks bs :
  plan_blocks cfg now daily_hours fuel tasks = Some bs →
  Forall (block_in_hours cfg) bs.
Proof.
  unfold plan_blocks. intros Hrun.
  destruct (for_tasks cfg now daily_hours fuel (by_priority now tasks) ∅ [])
    as [[tr out]|] eqn:Hf; [|discriminate].
  injection Hrun as <-.
  destruct (for_tasks_inv cfg now daily_hours (λ _, True)
              (λ _ bs, Forall (block_in_hours cfg) bs) (λ _ s, hours_inv s))
    with (6 := Hf) as [_ H]; auto using hours_inv_step.
  - intros t b bs0 _ Hbs. split; [|exact Hbs]. simpl.
    pose proof (next_work_start_time cfg now Hcfg).
    assert (0 <= minutes 10) by (unfold minutes, MINUTE, SECOND; lia). lia.
  - intros t s [_ Hbs]. exact Hbs.
  - apply Forall_forall; auto.
Qed.
End WorkingHours.

(** ** What one task places *)

Lemma placed_refl t s : 0 <= remaining s → placed t s s.
Proof.
  intros Hr. exists []. rewrite app_nil_r. split; [|split; [|split]]; auto.
  unfold Zsum; simpl. lia.
Qed.

Lemma placed_step cfg now daily_hours t s0 s :
  placed t s0 s → loop_cond now t s = true →
  placed t s0 (loop_body cfg daily_hours t s).
Proof.
  intros (new & Hbs & Hof & Hsum & Hr) Hc. unfold loop_cond in Hc.
  apply andb_true_iff in Hc as [Hrem _]. apply Z.ltb_lt in Hrem.
  unfold loop_body.
  destruct (Z.leb_spec (cap_of daily_hours)
              (default 0 (day_budget s !! date (cursor s)))) as [|Hused]; simpl.
  { exists new. auto. }
  match goal with |- context [?a <? ?b] => destruct (a <? b) end; simpl.
  { exists new. auto. }
  set (len := Z.min (Z.min BLOCK_MINUTES (remaining s))
                (cap_of daily_hours - default 0 (day_budget s !! date (cursor s)))).
  assert (1 <= len <= remaining s ∧ len <= BLOCK_MINUTES) as Hlen
    by (unfold len, BLOCK_MINUTES; lia).
  eexists (new ++ [_]). simpl. split; [by rewrite Hbs, app_assoc|].
  split.
  { apply Forall_app. split; [assumption|]. constructor; [|constructor].
    unfold block_of. rewrite block_minutes_emitted. simpl.
    split; [|split; [|split; [|split; [|split]]]]; auto; fold len; lia. }
  split; [|lia].
  rewrite fmap_app, Zsum_app, Hsum. simpl. rewrite block_minutes_emitted.
  unfold Zsum; simpl. lia.
Qed.

Lemma sorted_snoc {A} (R : A → A → Prop) (l : list A) (x : A) :
  StronglySorted R l → Forall (λ a, R a x) l → StronglySorted R (l ++ [x]).
Proof.
  induction 1 as [|a l Hs IH Ha]; intros Hx; simpl.
  - repeat constructor.
  - inversion Hx as [|? ? Hax Hlx]; subst. constructor; [by apply IH|].
    apply Forall_app. split; [assumption | by constructor].
Qed.

Lemma in_order_refl s : in_order s s.
Proof.
  exists []. rewrite app_nil_r. split; [|split; [|split]]; auto; try constructor. lia.
Qed.

Lemma in_order_step cfg now daily_hours t s0 s :
  valid_config cfg → in_order s0 s → loop_cond now t s = true →
  in_order s0 (loop_body cfg daily_hours t s).
Proof.
  intros Hcfg (new & Hbs & Hsort & Hall & Hle) Hc.
  pose proof (loop_body_progress cfg now daily_hours Hcfg t s Hc) as [Hcur _].
  unfold loop_cond in Hc. apply andb_true_iff in Hc as [Hrem _].
  apply Z.ltb_lt in Hrem.
  assert (Forall (λ b, cursor s0 <= start b ∧ start b < end_ b ∧
                       end_ b + minutes 10 <= cursor (loop_body cfg daily_hours t s)) new)
    as Hall'.
  { eapply Forall_impl; [exact Hall|]. simpl. intros b (? & ? & ?). lia. }
  revert Hcur Hall'. unfold in_order, loop_body.
  destruct (Z.leb_spec (cap_of daily_hours)
              (default 0 (day_budget s !! date (cursor s)))) as [|Hused]; cbn [cursor blocks remaining day_budget].
  { intros Hcur Hall'. exists new. split; [|split; [|split]]; auto. lia. }
  match goal with |- context [?a <? ?b] => destruct (a <? b) end;
    cbn [cursor blocks remaining day_budget].
  { intros Hcur Hall'. exists new. split; [|split; [|split]]; auto. lia. }
  intros Hcur Hall'.
  eexists (new ++ [_]). split; [by rewrite Hbs, app_assoc|].
  split; [|split; [|lia]].
  - apply sorted_snoc; [assumption|].
    eapply Forall_impl; [exact Hall|]. intros b (_ & _ & Hb).
    unfold break_between; simpl. exact Hb.
  - apply Forall_app. split; [assumption|]. constructor; [|constructor].
    simpl. assert (0 < minutes (Z.min (Z.min BLOCK_MINUTES (remaining s))
                     (cap_of daily_hours - default 0 (day_budget s !! date (cursor s)))))
      by (unfold minutes, MINUTE, SECOND, BLOCK_MINUTES; lia).
    split; [|split]; lia.
Qed.

(** ** The horizon of the plan *)

Section Horizon.
Context (cfg : Config) (now : datetime) (daily_hours : Q) (tasks : list Task).
Hypothesis Hcfg : valid_config cfg.

Definition horizon_inv (t : Task) (s : LoopState) : Prop :=
  t ∈ tasks ∧ next_work_start cfg now <= cursor s ∧
  Forall (within_horizon cfg now tasks) (blocks s).

Lemma horizon_inv_step t s :
  horizon_inv t s → loop_cond now t s = true →
  horizon_inv t (loop_body cfg daily_hours t s).
Proof.
  intros (Ht & Hcur & Hbs) Hc.
  pose proof (loop_body_progress cfg now daily_hours Hcfg t s Hc) as [Hlt _].
  unfold loop_cond in Hc. apply andb_true_iff in Hc as [_ Hla].
  apply Z.leb_le in Hla.
  split; [assumption|]. split; [lia|]. clear Hlt. unfold loop_body.
  destruct (cap_of daily_hours <=? _); simpl; [assumption|].
  match goal with |- context [?a <? ?b] => destruct (a <? b) end;
    simpl; [assumption|].
  apply Forall_app. split; [assumption|]. constructor; [|constructor].
  exists t. simpl. auto.
Qed.

Lemma plan_blocks_horizon fuel bs :
  plan_blocks cfg now daily_hours fuel tasks = Some bs →
  Forall (within_horizon cfg now tasks) bs.
Proof.
  unfold plan_blocks. intros Hrun.
  destruct (for_tasks cfg now daily_hours fuel (by_priority now tasks) ∅ [])
    as [[tr out]|] eqn:Hf; [|discriminate].
  injection Hrun as <-.
  destruct (for_tasks_inv cfg now daily_hours (λ t, t ∈ tasks)
              (λ _ bs, Forall (within_horizon cfg now tasks) bs) horizon_inv)
    with (6 := Hf) as [_ H]; auto using horizon_inv_step.
  - intros t b bs0 Ht Hbs. split; [assumption|]. split; [simpl; lia | exact Hbs].
  - intros t s (_ & _ & Hbs). exact Hbs.
  - apply Forall_forall. intros t Ht. by rewrite <- (by_priority_perm now tasks).
Qed.
End Horizon.

(** ** Plans without blocks *)

Lemma int_of_Q_small (q : Q) : (q < 1)%Q → int_of_Q q <= 0.
Proof.
  unfold int_of_Q, Qlt. destruct q as [n d]; simpl. intros Hlt.
  destruct (Z_lt_le_dec n 0).
  - apply Z.quot_le_upper_bound; lia.
  - rewrite Z.quot_small; lia.
Qed.

Lemma plan_blocks_no_cap cfg now daily_hours fuel tasks bs :
  cap_of daily_hours <= 0 →
  plan_blocks cfg now daily_hours fuel tasks = Some bs → bs = [].
Proof.
  unfold plan_blocks. intros Hcap Hrun.
  destruct (for_tasks cfg now daily_hours fuel (by_priority now tasks) ∅ [])
    as [[tr out]|] eqn:Hf; [|discriminate].
  injection Hrun as <-.
  destruct (for_tasks_inv cfg now daily_hours (λ _, True)
              (λ b bs, b = ∅ ∧ bs = [])
              (λ _ s, day_budget s = ∅ ∧ blocks s = []))
    with (6 := Hf) as [_ [_ H]]; auto.
  - intros t s [Hb Hbs] _. unfold loop_body. rewrite Hb, lookup_empty. simpl.
    destruct (Z.leb_spec (cap_of daily_hours) 0); [|lia]. simpl. auto.
  - apply Forall_forall; auto.
Qed.

Lemma plan_blocks_returns cfg now daily_hours tasks :
  valid_config cfg →
  ∃ fuel bs, ∀ fuel', (fuel <= fuel')%nat →
    plan_blocks cfg now daily_hours fuel' tasks = Some bs.
Proof.
  intros Hcfg.
  destruct (for_tasks_terminates cfg now daily_hours (by_priority now tasks) Hcfg)
    as [fuel Hf].
  destruct (Hf ∅ []) as [[tr out] Hr].
  exists fuel, out. intros fuel' Hle. unfold plan_blocks.
  by rewrite (for_tasks_fuel_mono _ _ _ _ _ _ _ _ _ Hle Hr).
Qed.

(** ** Tasks past their cutoff *)

Lemma while_loop_past_cutoff cfg now daily_hours fuel t b bs :
  past_cutoff cfg now t = true →
  while_loop cfg now daily_hours fuel t (task_entry cfg now t b bs)
  = Some (task_entry cfg now t b bs).
Proof.
  unfold past_cutoff. destruct (due t) as [d|] eqn:Hd; [|discriminate].
  intros Hlt. apply Z.ltb_lt in Hlt.
  assert (loop_cond now t (task_entry cfg now t b bs) = false) as Hc.
  { unfold loop_cond, last_allowed_of. rewrite Hd. simpl.
    apply andb_false_iff. right. apply Z.leb_gt. exact Hlt. }
  destruct fuel; simpl; by rewrite Hc.
Qed.

Lemma for_tasks_skip cfg now daily_hours fuel ts b bs :
  snd <$> for_tasks cfg now daily_hours fuel ts b bs =
  snd <$> for_tasks cfg now daily_hours fuel
            (filter (λ t, past_cutoff cfg now t = false) ts) b bs.
Proof.
  revert b bs. induction ts as [|t ts IH]; intros b bs; [reflexivity|].
  rewrite filter_cons. destruct (decide (past_cutoff cfg now t = false)) as [Hp|Hp].
  - simpl.
    destruct (while_loop cfg now daily_hours fuel t (task_entry cfg now t b bs))
      as [s|]; [|reflexivity].
    specialize (IH (day_budget s) (blocks s)).
    destruct (for_tasks cfg now daily_hours fuel ts (day_budget s) (blocks s))
      as [[tr out]|];
    destruct (for_tasks cfg now daily_hours fuel
                (filter (λ t, past_cutoff cfg now t = false) ts)
                (day_budget s) (blocks s)) as [[tr' out']|];
    simpl in *; congruence.
  - apply not_false_is_true in Hp. rewrite <- IH. simpl.
    rewrite (while_loop_past_cutoff _ _ _ _ _ _ _ Hp). simpl.
    destruct (for_tasks cfg now daily_hours fuel ts b bs) as [[tr out]|];
      reflexivity.
Qed.

(** ** Sorting and filtering *)

Lemma insert_by_head now x l :
  Forall (λ y, key_le (sort_key now x) (sort_key now y)) l →
  insert_by now x l = x :: l.
Proof.
  destruct l as [|y l]; [reflexivity|]. intros H. simpl.
  apply Forall_cons in H as [Hy _]. apply key_lt_false in Hy. by rewrite Hy.
Qed.

Lemma insert_by_filter_sorted now (P : Task → Prop) `{!∀ t, Decision (P t)} x l :
  StronglySorted (λ a b, key_le (sort_key now a) (sort_key now b)) l →
  filter P (insert_by now x l) =
  if decide (P x) then insert_by now x (filter P l) else filter P l.
Proof.
  induction 1 as [|y l Hs IH Hy]; simpl.
  - rewrite filter_cons, filter_nil. destruct (decide (P x)); reflexivity.
  - destruct (key_lt (sort_key now y) (sort_key now x)) eqn:E.
    + rewrite !(filter_cons _ y), IH.
      destruct (decide (P y)); destruct (decide (P x)); simpl; try reflexivity.
      by rewrite E.
    + rewrite (filter_cons _ x). destruct (decide (P x)); [|reflexivity].
      rewrite insert_by_head; [reflexivity|].
      apply key_lt_false in E.
      assert (Forall (λ z, key_le (sort_key now x) (sort_key now z)) (y :: l)) as Hall.
      { constructor; [assumption|]. eapply Forall_impl; [exact Hy|].
        intros z Hz. simpl in Hz. eapply key_le_trans; eassumption. }
      apply Forall_forall. intros z Hz.
      apply (proj1 (Forall_forall _ _) Hall z).
      by apply list_elem_of_filter in Hz as [_ Hz].
Qed.

Lemma by_priority_filter_pred now (P : Task → Prop) `{!∀ t, Decision (P t)} tasks :
  by_priority now (filter P tasks) = filter P (by_priority now tasks).
Proof.
  induction tasks as [|t tasks IH]; [reflexivity|].
  rewrite filter_cons. simpl.
  rewrite (insert_by_filter_sorted now P t _ (by_priority_sorted now tasks)).
  destruct (decide (P t)); simpl; by rewrite IH.
Qed.

Lemma key_le_antisym k1 k2 : key_le k1 k2 → key_le k2 k1 → k1 = k2.
Proof.
  unfold key_le. destruct k1 as [a b], k2 as [c d]; simpl. intros H1 H2.
  f_equal; lia.
Qed.

(** Two sorted lists with the same elements and no key twice are the
    same list. *)
Lemma sorted_perm_eq now l1 l2 :
  StronglySorted (λ a b, key_le (sort_key now a) (sort_key now b)) l1 →
  StronglySorted (λ a b, key_le (sort_key now a) (sort_key now b)) l2 →
  l1 ≡ₚ l2 → NoDup (sort_key now <$> l1) → l1 = l2.
Proof.
  intros Hs1. revert l2. induction Hs1 as [|x l1 Hs1 IH Hx]; intros l2 Hs2 Hp Hnd.
  - apply Permutation_nil_l in Hp. by subst.
  - destruct l2 as [|y l2]; [apply Permutation_nil_r in Hp; discriminate|].
    inversion Hs2 as [|? ? Hs2' Hy]; subst.
    rewrite fmap_cons in Hnd. apply NoDup_cons in Hnd as [Hnx Hnd].
    assert (x = y) as ->.
    { assert (x ∈ y :: l2) as Hin by (rewrite <- Hp; apply list_elem_of_here).
      apply elem_of_cons in Hin as [?|Hin]; [assumption|].
      assert (y ∈ x :: l1) as Hin' by (rewrite Hp; apply list_elem_of_here).
      apply elem_of_cons in Hin' as [?|Hin']; [done|].
      exfalso. apply Hnx.
      assert (sort_key now x = sort_key now y) as ->.
      { apply key_le_antisym.
        - apply (proj1 (Forall_forall _ _) Hx y Hin').
        - apply (proj1 (Forall_forall _ _) Hy x Hin). }
      apply list_elem_of_fmap. eauto. }
    f_equal. apply IH; [assumption | | assumption].
    by apply Permutation_cons_inv in Hp.
Qed.

(** ** Enough passes *)

Lemma passes_bound_measure cfg now t b bs :
  loop_measure now t (task_entry cfg now t b bs) = passes_bound cfg now t.
Proof. unfold loop_measure, passes_bound, task_entry; simpl. f_equal. lia. Qed.

Lemma for_tasks_enough cfg now daily_hours fuel ts :
  valid_config cfg → Forall (λ t, (passes_bound cfg now t <= fuel)%nat) ts →
  ∀ b bs, ∃ r, for_tasks cfg now daily_hours fuel ts b bs = Some r.
Proof.
  intros Hcfg. induction 1 as [|t ts Ht _ IH]; intros b bs; simpl; [eauto|].
  destruct (while_loop_terminates cfg now daily_hours Hcfg t fuel
              (task_entry cfg now t b bs)) as [s Hs].
  { by rewrite passes_bound_measure. }
  rewrite Hs. destruct (IH (day_budget s) (blocks s)) as [[tr out] Hr].
  rewrite Hr. eauto.
Qed.

(** ** Blank texts *)

Lemma all_space_app s1 s2 :
  all_space (s1 +:+ s2) = all_space s1 && all_space s2.
Proof.
  induction s1 as [|c s1 IH]; simpl; [reflexivity|].
  rewrite IH. by rewrite andb_assoc.
Qed.

Lemma all_space_lstrip s : all_space (lstrip s) = all_space s.
Proof.
  induction s as [|c s IH]; simpl; [reflexivity|].
  destruct (isspace c) eqn:E; simpl; [exact IH | by rewrite E].
Qed.

Lemma rstrip_empty s : nonempty (rstrip s) = negb (all_space s).
Proof.
  induction s as [|c s IH]; simpl; [reflexivity|].
  destruct (rstrip s) as [|c' r]; simpl in *.
  - apply (f_equal negb) in IH. rewrite negb_involutive in IH. simpl in IH.
    rewrite <- IH. destruct (isspace c); reflexivity.
  - apply (f_equal negb) in IH. rewrite negb_involutive in IH. simpl in IH.
    rewrite <- IH. by rewrite andb_false_r.
Qed.

Lemma strip_empty s : nonempty (strip s) = negb (all_space s).
Proof. unfold strip. by rewrite rstrip_empty, all_space_lstrip. Qed.

Lemma splitlines_from_space after_cr cur s :
  all_space cur = true → all_space s = true →
  Forall (λ ln, all_space ln = true) (splitlines_from after_cr cur s).
Proof.
  revert after_cr cur. induction s as [|c s IH]; intros after_cr cur Hcur Hs; simpl.
  - destruct cur; repeat constructor. exact Hcur.
  - simpl in Hs. apply andb_true_iff in Hs as [Hc Hs].
    destruct (after_cr && (code c =? 10)%N); [by apply IH|].
    destruct (is_linebreak c).
    + constructor; [assumption|]. by apply IH.
    + apply IH; [|assumption]. rewrite all_space_app. simpl.
      by rewrite Hcur, Hc.
Qed.

Lemma nonblank_lines_blank text :
  nonempty (strip text) = false → nonblank_lines text = [].
Proof.
  rewrite strip_empty. intros H. apply negb_false_iff in H.
  unfold nonblank_lines, splitlines.
  pose proof (splitlines_from_space false EmptyString text eq_refl H) as Hall.
  induction Hall as [|ln lines Hln _ IH]; [reflexivity|].
  rewrite filter_cons. destruct (decide _) as [Hne|]; [|exact IH].
  rewrite strip_empty, Hln in Hne. discriminate.
Qed.

(** ** One task for each candidate line *)

Lemma extract_lines_shape parse now uuid src lines acc tasks :
  extract_lines parse now uuid src lines acc = Some tasks →
  ∃ new, tasks = acc ++ new ∧
    title <$> new = List.filter is_candidate lines ∧
    (∀ i t, new !! i = Some t →
       made_from parse (now (length acc + i)%nat) src t) ∧
    id <$> new = uuid <$> seq (length acc) (length new).
Proof.
  revert acc. induction lines as [|ln lines IH]; intros acc; simpl.
  - intros [= <-]. exists []. rewrite app_nil_r.
    split; [reflexivity|]. split; [reflexivity|]. split; [|reflexivity].
    intros i t Hi. discriminate.
  - destruct (is_candidate ln) eqn:Hc; [|apply IH].
    unfold task_of_line at 1.
    destruct (estimate ln) as [e|] eqn:He; [|discriminate]. simpl.
    intros Hrun. destruct (IH _ Hrun) as (new & -> & Ht & Hm & Hid).
    eexists (_ :: new). split; [by rewrite <- app_assoc|].
    split; [rewrite fmap_cons; simpl; by f_equal|]. split.
    + intros [|i] t Hi; simpl in Hi.
      * injection Hi as <-. unfold made_from; simpl. rewrite Hc, Nat.add_0_r.
        split; [reflexivity|]. split; [reflexivity|]. split; [reflexivity|].
        split; [|split; reflexivity].
        exists e. split; [reflexivity | by apply estimate_est_from].
      * specialize (Hm i t Hi). rewrite length_app in Hm. simpl in Hm.
        by replace (length acc + S i)%nat with (length acc + 1 + i)%nat by lia.
    + rewrite fmap_cons, Hid, length_app. cbn [length seq]. rewrite fmap_cons.
      replace (length acc + 1)%nat with (S (length acc)) by lia. reflexivity.
Qed.

Lemma rule_based_extract_source parse now uuid text src tasks :
  rule_based_extract parse now uuid text src = Some tasks →
  Forall (λ t, source t = Some src) tasks.
Proof.
  unfold rule_based_extract.
  destruct (extract_lines parse now uuid src (nonblank_lines text) [])
    as [ts|] eqn:Hts; [|discriminate].
  simpl. intros [= <-].
  destruct (extract_lines_shape _ _ _ _ _ _ _ Hts) as (new & -> & _ & Hm & _).
  simpl. destruct new as [|t new].
  - destruct (nonempty (strip text)); repeat constructor.
  - apply Forall_lookup. intros i t' Hi.
    by destruct (Hm i t' Hi) as (_ & _ & _ & _ & _ & Hs).
Qed.

Lemma rule_based_extract_nonblank parse now uuid text src tasks :
  nonempty (strip text) = true →
  rule_based_extract parse now uuid text src = Some tasks → tasks ≠ [].
Proof.
  unfold rule_based_extract. intros Hne.
  destruct (extract_lines parse now uuid src (nonblank_lines text) [])
    as [ts|]; [|discriminate].
  simpl. intros [= <-]. rewrite Hne. by destruct ts.
Qed.

(** ** The tasks of all the inputs *)

Lemma from_input_mono parse now uuid raw raw' t :
  raw ⊆ raw' → from_input parse now uuid raw t → from_input parse now uuid raw' t.
Proof.
  intros Hsub (src & text & k & ts & Hin & Hrun & Ht & Hs).
  exists src, text, k, ts. auto.
Qed.

Lemma extract_inputs_shape parse now uuid raw acc tasks :
  extract_inputs parse now uuid raw acc = Some tasks →
  ∃ new, tasks = acc ++ new ∧ Forall (from_input parse now uuid raw) new ∧
         (input_blobs raw → raw ≠ [] → new ≠ []).
Proof.
  revert acc. induction raw as [|[src text] raw IH]; intros acc; simpl.
  - intros [= <-]. exists []. rewrite app_nil_r. repeat split; [constructor | done].
  - destruct (rule_based_extract parse _ _ text src) as [ts|] eqn:Hts;
      [|discriminate]. simpl.
    intros Hrun. destruct (IH _ Hrun) as (new & -> & Hfrom & Hne).
    exists (ts ++ new). split; [by rewrite app_assoc|]. split.
    + apply Forall_app. split.
      * pose proof (rule_based_extract_source _ _ _ _ _ _ Hts) as Hsrc.
        apply Forall_forall. intros t Ht.
        exists src, text, (length acc), ts.
        split; [apply list_elem_of_here|]. split; [assumption|].
        split; [assumption|]. by apply (proj1 (Forall_forall _ _) Hsrc).
      * eapply Forall_impl; [exact Hfrom|]. intros t.
        apply from_input_mono. set_solver.
    + intros Hall _. apply Forall_cons in Hall as [Htext _]. simpl in Htext.
      pose proof (rule_based_extract_nonblank _ _ _ _ _ _ Htext Hts).
      by destruct ts.
Qed.

Lemma dedupe_nonempty l : l ≠ [] → dedupe l ≠ [].
Proof.
  destruct l as [|t l]; [done|]. intros _ Hd.
  assert (title_key t ∈ title_key <$> dedupe (t :: l)) as Hin.
  { apply dedupe_keys_cover. rewrite fmap_cons. apply list_elem_of_here. }
  rewrite Hd in Hin. by apply elem_of_nil in Hin.
Qed.

(** ** The priority heuristic *)

Lemma priority_of_mono now1 now2 d1 d2 :
  d1 - now1 <= d2 - now2 →
  priority_of now1 (Some d1) <= priority_of now2 (Some d2).
Proof.
  unfold priority_of. intros Hle.
  repeat match goal with |- context [?a <=? ?b] => destruct (Z.leb_spec a b) end;
    try lia; clock_lia.
Qed.

(** ** The generic sort *)

Lemma sorted_ext key key' items :
  (∀ t, key t = key' t) → sorted key items = sorted key' items.
Proof.
  intros Hk. induction items as [|x items IH]; simpl; [reflexivity|].
  rewrite IH. generalize (sorted key' items). intros l.
  induction l as [|y l IHl]; simpl; [reflexivity|].
  by rewrite !Hk, IHl.
Qed.

Lemma sorted_by_priority now tasks : sorted (sort_key now) tasks = by_priority now tasks.
Proof.
  induction tasks as [|x tasks IH]; simpl; [reflexivity|].
  rewrite IH. generalize (by_priority now tasks). intros l.
  induction l as [|y l IHl]; simpl; [reflexivity|]. by rewrite IHl.
Qed.

Lemma notion_listed_by_priority far tasks :
  Notion.listed far tasks = by_priority (far - days 30) tasks.
Proof.
  unfold Notion.listed. rewrite <- sorted_by_priority. apply sorted_ext.
  intros t. unfold Notion.sort_key, sort_key. do 2 f_equal. lia.
Qed.

Lemma sorted_impl {A} (R R' : A → A → Prop) (l : list A) :
  (∀ a b, R a b → R' a b) → StronglySorted R l → StronglySorted R' l.
Proof.
  intros HR. induction 1 as [|a l Hs IH Ha]; constructor; [assumption|].
  eapply Forall_impl; [exact Ha | apply HR].
Qed.

(** ** The first pass of a task *)

Section Entries.
Context (cfg : Config) (now : datetime) (daily_hours : Q).

(** An invariant of the outer loop holds on every entry to the inner
    loop. *)
Lemma for_tasks_entries (T : Task → Prop) (J : gmap Z Z → list Block → Prop)
    (P : Task → LoopState → Prop) :
  (∀ t b bs, T t → J b bs → P t (task_entry cfg now t b bs)) →
  (∀ t s, P t s → loop_cond now t s = true → P t (loop_body cfg daily_hours t s)) →
  (∀ t s, P t s → J (day_budget s) (blocks s)) →
  ∀ fuel ts b bs tr out, Forall T ts → J b bs →
    for_tasks cfg now daily_hours fuel ts b bs = Some (tr, out) →
    Forall (λ p, J (day_budget p.1) (blocks p.1)) tr.
Proof.
  intros Hentry Hstep Hexit fuel ts.
  induction ts as [|t ts IH]; intros b bs tr out HT HJ; simpl.
  - intros [= <- <-]. constructor.
  - destruct (while_loop cfg now daily_hours fuel t (task_entry cfg now t b bs))
      as [s|] eqn:Hw; [|discriminate].
    destruct (for_tasks cfg now daily_hours fuel ts (day_budget s) (blocks s))
      as [[tr' out']|] eqn:Hf; [|discriminate].
    intros [= <- <-]. inversion HT as [|? ? Ht HTs]; subst.
    constructor; [exact HJ|].
    eapply (IH _ _ _ _ HTs); [|exact Hf].
    apply (Hexit t).
    eapply (while_loop_inv cfg now daily_hours (P t) t (Hstep t)); [|exact Hw]. auto.
Qed.

Lemma while_loop_first fuel t s s' :
  loop_cond now t s = true →
  while_loop cfg now daily_hours fuel t s = Some s' →
  ∃ fuel', while_loop cfg now daily_hours fuel' t (loop_body cfg daily_hours t s)
           = Some s'.
Proof. destruct fuel; simpl; intros ->; [discriminate | eauto]. Qed.

(** A pass from a cursor that leaves room for a block of full length,
    on a date with minutes left under the cap, emits a block. *)
Lemma loop_body_emits t s :
  valid_config cfg → 0 < remaining s →
  time_of (cursor s) + minutes BLOCK_MINUTES <= time_us (WORK_END cfg) →
  default 0 (day_budget s !! date (cursor s)) < cap_of daily_hours →
  ∃ b, blocks (loop_body cfg daily_hours t s) = blocks s ++ [b] ∧
       task_id b = id t ∧ start b = cursor s ∧
       0 <= remaining (loop_body cfg daily_hours t s).
Proof.
  intros ((Hs1 & Hs2) & (He1 & He2) & Hle) Hrem Hfit Hused. unfold loop_body.
  destruct (Z.leb_spec (cap_of daily_hours)
              (default 0 (day_budget s !! date (cursor s)))); [lia|].
  set (len := Z.min (Z.min BLOCK_MINUTES (remaining s))
                (cap_of daily_hours - default 0 (day_budget s !! date (cursor s)))).
  assert (1 <= len <= 50 ∧ len <= remaining s) as Hlen
    by (unfold len, BLOCK_MINUTES; lia).
  destruct (Z.ltb_spec (time_us (WORK_END cfg)) (time_of (cursor s + minutes len)))
    as [Hover|_].
  { exfalso. clear Hused. clock_lia. }
  eexists. simpl. split; [reflexivity|]. split; [reflexivity|].
  split; [reflexivity | lia].
Qed.
End Entries.

Lemma plan_trace_budget cfg now daily_hours fuel tasks tr :
  plan_trace cfg now daily_hours fuel tasks = Some tr →
  Forall (λ p, budget_inv daily_hours (day_budget p.1) (blocks p.1)) tr.
Proof.
  unfold plan_trace. intros Hrun.
  destruct (for_tasks cfg now daily_hours fuel (by_priority now tasks) ∅ [])
    as [[tr' out]|] eqn:Hf; [|discriminate].
  injection Hrun as <-.
  eapply (for_tasks_entries cfg now daily_hours (λ _, True) (budget_inv daily_hours)
            (λ _ s, budget_inv daily_hours (day_budget s) (blocks s)));
    [ | | | | | exact Hf].
  - auto.
  - intros t s. apply budget_inv_step.
  - auto.
  - apply Forall_forall; auto.
  - repeat split; intros; try rewrite lookup_empty; try rewrite minutes_on_nil;
      simpl; try lia; try congruence. constructor.
Qed.

(** ** Strings *)

Lemma str_app_cons c (s1 s2 : string) : String c s1 +:+ s2 = String c (s1 +:+ s2).
Proof. reflexivity. Qed.

Lemma str_app_nil_l (s : string) : "" +:+ s = s.
Proof. reflexivity. Qed.

Lemma str_app_assoc (s1 s2 s3 : string) : (s1 +:+ s2) +:+ s3 = s1 +:+ s2 +:+ s3.
Proof.
  induction s1 as [|c s1 IH]; [reflexivity|]. by rewrite !str_app_cons, IH.
Qed.

Lemma str_app_nil_r (s : string) : s +:+ "" = s.
Proof. induction s as [|c s IH]; [reflexivity|]. by rewrite str_app_cons, IH. Qed.

Lemma str_length_app (s1 s2 : string) :
  String.length (s1 +:+ s2) = (String.length s1 + String.length s2)%nat.
Proof.
  induction s1 as [|c s1 IH]; [reflexivity|]. rewrite str_app_cons. simpl.
  by rewrite IH.
Qed.

Lemma substring_here (mid post : string) :
  String.substring 0 (String.length mid) (mid +:+ post) = mid.
Proof.
  induction mid as [|c mid IH]; [by destruct post|].
  rewrite str_app_cons. simpl. by rewrite IH.
Qed.

Lemma substring_mid (pre mid post : string) :
  String.substring (String.length pre) (String.length mid) (pre +:+ mid +:+ post)
  = mid.
Proof.
  induction pre as [|c pre IH]; [exact (substring_here mid post)|].
  rewrite str_app_cons. simpl. exact IH.
Qed.

Lemma at_cur_next subj c c' mid :
  at_cur subj c → rest c = mid +:+ rest c' →
  pos c' = (pos c + String.length mid)%nat → at_cur subj c'.
Proof.
  intros (pre & -> & Hlen) Hrest Hpos. exists (pre +:+ mid).
  rewrite str_app_assoc, str_length_app, Hrest. split; [reflexivity | lia].
Qed.

(** ** Soundness of the matcher *)

Lemma rep_sound p lo hi pv s i k res :
  rep p lo hi pv s i k = Some res →
  ∃ mid s' pv', s = mid +:+ s' ∧ all_chars p mid = true ∧
    (lo <= String.length mid)%nat ∧
    k {| prev := pv'; rest := s'; pos := i + String.length mid |} = Some res.
Proof.
  assert (∀ lo pv s i,
    match lo with
    | O => k {| prev := pv; rest := s; pos := i |}
    | S _ => None
    end = Some res →
    ∃ mid s' pv', s = mid +:+ s' ∧ all_chars p mid = true ∧
      (lo <= String.length mid)%nat ∧
      k {| prev := pv'; rest := s'; pos := i + String.length mid |} = Some res)
    as Hstop.
  { intros [|lo'] pv0 s0 i0 H; [|discriminate].
    exists EmptyString, s0, pv0. simpl. rewrite Nat.add_0_r. auto. }
  revert lo hi pv i. induction s as [|c s IH]; intros lo hi pv i Hrun.
  - apply (Hstop lo pv). destruct hi as [[|h]|]; exact Hrun.
  - simpl in Hrun.
    assert (hi = Some O ∨ hi ≠ Some O) as [->|Hhi]
      by (destruct hi as [[|h]|]; auto).
    { by apply (Hstop lo pv). }
    assert ((if p c then
               match rep p (Nat.pred lo) (Nat.pred <$> hi) (Some c) s (S i) k with
               | Some m => Some m
               | None => match lo with
                         | O => k {| prev := pv; rest := String c s; pos := i |}
                         | S _ => None
                         end
               end
             else match lo with
                  | O => k {| prev := pv; rest := String c s; pos := i |}
                  | S _ => None
                  end) = Some res) as Hrun'.
    { destruct hi as [[|h]|]; [done | exact Hrun | exact Hrun]. }
    clear Hrun. destruct (p c) eqn:Hp; [|by apply (Hstop lo pv)].
    destruct (rep p (Nat.pred lo) (Nat.pred <$> hi) (Some c) s (S i) k)
      as [m|] eqn:Hrec; [|by apply (Hstop lo pv)].
    injection Hrun' as ->.
    destruct (IH _ _ _ _ Hrec) as (mid & s' & pv' & -> & Hall & Hlo & Hk).
    exists (String c mid), s', pv'. simpl. rewrite Hp, Hall.
    split; [reflexivity|]. split; [reflexivity|]. split; [lia|].
    rewrite <- Hk. do 2 f_equal. lia.
Qed.

Lemma has_group_cons n m sp g :
  has_group n ((m, sp) :: g) = Nat.eqb m n || has_group n g.
Proof. reflexivity. Qed.

Lemma rmatch_sound subj Q r :
  groups_in Q r → ∀ k c g res,
  at_cur subj c → Forall (cap_in subj Q) g → rmatch r k c g = Some res →
  ∃ c' g' mid, k c' g' = Some res ∧ rest c = mid +:+ rest c' ∧
    pos c' = (pos c + String.length mid)%nat ∧ lang r mid ∧
    Forall (cap_in subj Q) g' ∧
    (∀ n, has_group n g || sets n r = true → has_group n g' = true).
Proof.
  induction r as [|p|r1 IH1 r2 IH2|r1 IH1 r2 IH2|r1 IH1|p lo hi| |m r1 IH1];
    intros HQ k c g res Hc Hg Hrun; simpl in Hrun.
  - exists c, g, EmptyString. simpl. rewrite Nat.add_0_r.
    repeat split; auto. intros n. by rewrite orb_false_r.
  - destruct (rest c) as [|x s'] eqn:Hrest; [discriminate|].
    destruct (p x) eqn:Hp; [|discriminate].
    eexists _, g, (String x EmptyString). split; [exact Hrun|]. simpl.
    split; [reflexivity|]. split; [lia|]. split; [eauto|].
    split; [assumption|]. intros n. by rewrite orb_false_r.
  - destruct HQ as [HQ1 HQ2].
    destruct (IH1 HQ1 _ _ _ _ Hc Hg Hrun)
      as (c1 & g1 & mid1 & Hrun2 & Hrest1 & Hpos1 & Hl1 & Hg1 & Hh1).
    pose proof (at_cur_next _ _ _ _ Hc Hrest1 Hpos1) as Hc1.
    destruct (IH2 HQ2 _ _ _ _ Hc1 Hg1 Hrun2)
      as (c2 & g2 & mid2 & Hk & Hrest2 & Hpos2 & Hl2 & Hg2 & Hh2).
    exists c2, g2, (mid1 +:+ mid2). split; [exact Hk|].
    split; [by rewrite Hrest1, Hrest2, str_app_assoc|].
    split; [rewrite str_length_app; lia|]. split; [simpl; eauto|].
    split; [assumption|]. intros n Hn. apply Hh2. simpl in Hn.
    apply orb_true_iff in Hn as [Hn|Hn].
    + apply orb_true_iff. left. apply Hh1. by rewrite Hn.
    + apply orb_true_iff in Hn as [Hn|Hn].
      * apply orb_true_iff. left. apply Hh1. rewrite Hn. apply orb_true_r.
      * rewrite Hn. apply orb_true_r.
  - destruct HQ as [HQ1 HQ2]. destruct (rmatch r1 k c g) as [m|] eqn:Hm.
    + injection Hrun as ->.
      destruct (IH1 HQ1 _ _ _ _ Hc Hg Hm)
        as (c1 & g1 & mid1 & Hk & Hrest1 & Hpos1 & Hl1 & Hg1 & Hh1).
      exists c1, g1, mid1. repeat split; auto; [simpl; auto|].
      intros n Hn. apply Hh1. simpl in Hn.
      apply orb_true_iff in Hn as [Hn|Hn]; [by rewrite Hn|].
      apply andb_true_iff in Hn as [Hn _]. rewrite Hn. apply orb_true_r.
    + destruct (IH2 HQ2 _ _ _ _ Hc Hg Hrun)
        as (c1 & g1 & mid1 & Hk & Hrest1 & Hpos1 & Hl1 & Hg1 & Hh1).
      exists c1, g1, mid1. repeat split; auto; [simpl; auto|].
      intros n Hn. apply Hh1. simpl in Hn.
      apply orb_true_iff in Hn as [Hn|Hn]; [by rewrite Hn|].
      apply andb_true_iff in Hn as [_ Hn]. rewrite Hn. apply orb_true_r.
  - destruct (rmatch r1 k c g) as [m|] eqn:Hm.
    + injection Hrun as ->.
      destruct (IH1 HQ _ _ _ _ Hc Hg Hm)
        as (c1 & g1 & mid1 & Hk & Hrest1 & Hpos1 & Hl1 & Hg1 & Hh1).
      exists c1, g1, mid1. repeat split; auto; [simpl; auto|].
      intros n Hn. apply Hh1. simpl in Hn. rewrite orb_false_r in Hn.
      by rewrite Hn.
    + exists c, g, EmptyString. simpl. rewrite Nat.add_0_r.
      repeat split; auto. intros n. by rewrite orb_false_r.
  - destruct (rep_sound _ _ _ _ _ _ _ _ Hrun) as (mid & s' & pv' & Hs & Hall & Hlo & Hk).
    eexists _, g, mid. split; [exact Hk|]. simpl.
    repeat split; auto. intros n. by rewrite orb_false_r.
  - destruct (xorb _ _); [|discriminate].
    exists c, g, EmptyString. simpl. rewrite Nat.add_0_r.
    repeat split; auto. intros n. by rewrite orb_false_r.
  - destruct HQ as [HQm HQ1].
    destruct (IH1 HQ1 _ _ _ _ Hc Hg Hrun)
      as (c1 & g1 & mid1 & Hk & Hrest1 & Hpos1 & Hl1 & Hg1 & Hh1).
    exists c1, ((m, (pos c, pos c1)) :: g1), mid1. split; [exact Hk|].
    split; [assumption|]. split; [assumption|]. split; [assumption|]. split.
    + constructor; [|assumption]. destruct Hc as (pre & Hsubj & Hlen).
      exists pre, mid1, (rest c1). simpl. rewrite Hsubj, Hrest1.
      repeat split; auto.
    + intros n Hn. rewrite has_group_cons. simpl in Hn.
      destruct (Nat.eqb m n); [reflexivity|]. simpl in *. by apply Hh1.
Qed.

Lemma search_from_sound Q r subj pv s i m :
  groups_in Q r → at_cur subj {| prev := pv; rest := s; pos := i |} →
  search_from r subj pv s i = Some m →
  subject m = subj ∧ Forall (cap_in subj Q) (m_groups m) ∧
  (∀ n, sets n r = true → has_group n (m_groups m) = true).
Proof.
  intros HQ. revert pv i. induction s as [|c s IH]; intros pv i Hc; simpl.
  - destruct (rmatch r _ _ _) as [[e g]|] eqn:Hm; [|discriminate].
    intros [= <-]. simpl.
    destruct (rmatch_sound subj Q r HQ _ _ _ _ Hc (List.Forall_nil _) Hm)
      as (c1 & g1 & mid1 & Hk & _ & _ & _ & Hg1 & Hh1).
    injection Hk as _ <-. repeat split; auto.
  - destruct (rmatch r _ _ _) as [[e g]|] eqn:Hm.
    + intros [= <-]. simpl.
      destruct (rmatch_sound subj Q r HQ _ _ _ _ Hc (List.Forall_nil _) Hm)
        as (c1 & g1 & mid1 & Hk & _ & _ & _ & Hg1 & Hh1).
      injection Hk as _ <-. repeat split; auto.
    + apply IH.
      apply (at_cur_next subj {| prev := pv; rest := String c s; pos := i |} _
               (String c EmptyString)); [assumption | reflexivity | simpl; lia].
Qed.

Lemma search_sound Q r subj m :
  groups_in Q r → search r subj = Some m →
  subject m = subj ∧ Forall (cap_in subj Q) (m_groups m) ∧
  (∀ n, sets n r = true → has_group n (m_groups m) = true).
Proof.
  intros HQ. apply search_from_sound; [assumption|].
  exists EmptyString. split; reflexivity.
Qed.

Lemma group_in Q subj n m :
  subject m = subj → Forall (cap_in subj Q) (m_groups m) →
  has_group n (m_groups m) = true →
  ∃ s pre post, group n m = Some s ∧ Q n s ∧ subj = pre +:+ s +:+ post.
Proof.
  unfold group. intros Hsubj. generalize (m_groups m). intros g Hg Hn.
  induction Hg as [|[k [a b]] g Hk _ IH]; [discriminate|].
  rewrite has_group_cons in Hn. simpl.
  destruct (Nat.eqb k n) eqn:Hkn; [|by apply IH].
  apply Nat.eqb_eq in Hkn. subst k.
  destruct Hk as (pre & mid & post & Hs & Ha & Hb & HQ). simpl in *.
  exists mid, pre, post. rewrite Hsubj, Hs. subst a b.
  replace (String.length pre + String.length mid - String.length pre)%nat
    with (String.length mid) by lia.
  rewrite substring_mid. auto.
Qed.

Lemma groups_in_any r : groups_in any_group r.
Proof. induction r; simpl; auto. split; [by intros|assumption]. Qed.

(** ** Numerals *)

Lemma isdigit_value c : isdigit c = true → 0 <= Z.of_N (code c - 48) <= 9.
Proof.
  unfold isdigit, in_range. intros H. apply andb_true_iff in H as [H1 H2].
  apply N.leb_le in H1, H2. lia.
Qed.

Lemma read_digits_digits d r acc n :
  all_chars isdigit d = true →
  match r with String c _ => isdigit c = false | EmptyString => True end →
  ∃ v, 0 <= v < 10 ^ Z.of_nat (String.length d) ∧
    read_digits (d +:+ r) acc n =
    (acc * 10 ^ Z.of_nat (String.length d) + v, (n + String.length d)%nat, r).
Proof.
  intros Hd Hr. revert acc n. induction d as [|c d IH]; intros acc n.
  - exists 0. rewrite str_app_nil_l. simpl. split; [lia|].
    rewrite Nat.add_0_r, Z.mul_1_r, Z.add_0_r.
    destruct r as [|c r]; simpl; [reflexivity | by rewrite Hr].
  - simpl in Hd. apply andb_true_iff in Hd as [Hc Hd].
    rewrite str_app_cons. simpl read_digits. rewrite Hc.
    destruct (IH Hd (10 * acc + Z.of_N (code c - 48)) (S n)) as (v & Hv & ->).
    pose proof (isdigit_value c Hc) as Hdc.
    cbn [String.length]. rewrite Nat2Z.inj_succ, Z.pow_succ_r by lia.
    set (P := 10 ^ Z.of_nat (String.length d)) in *.
    exists (Z.of_N (code c - 48) * P + v). split; [nia|].
    apply pair_equal_spec. split; [apply pair_equal_spec; split; lia | reflexivity].
Qed.

Lemma dot_char c :
  Ascii.eqb (lower_char c) (lower_char ".") = true →
  (code c =? 46)%N = true ∧ isdigit c = false.
Proof.
  destruct c as [[] [] [] [] [] [] [] []]; vm_compute; intros H;
    try discriminate H; split; reflexivity.
Qed.

Lemma numeral_lang s :
  lang (Seq (digits 1 None) (Opt (Seq (ci ".") (digits 1 None)))) s → numeral s.
Proof.
  intros (d1 & s2 & -> & [Hd1 Hn1] & Hs2). unfold numeral, float_of_str.
  destruct d1 as [|c1 d1']; [simpl in Hn1; lia|]. clear Hn1.
  set (d1 := String c1 d1') in *.
  assert (0 < 10 ^ Z.of_nat (String.length d1)) as Hp1
    by (apply Z.pow_pos_nonneg; lia).
  destruct Hs2 as [->|(t1 & d2 & -> & (c & -> & Hc) & [Hd2 Hn2])].
  - destruct (read_digits_digits d1 EmptyString 0 0 Hd1 I) as (v & Hv & ->).
    cbn [String.length Nat.add d1]. eexists. split; [reflexivity|].
    rewrite str_app_nil_r. fold d1. split.
    + unfold Qle; simpl. lia.
    + rewrite <- Zlt_Qlt. lia.
  - apply dot_char in Hc as [Hdot Hnd].
    destruct d2 as [|c2 d2']; [simpl in Hn2; lia|]. clear Hn2.
    set (d2 := String c2 d2') in *.
    assert (0 < 10 ^ Z.of_nat (String.length d2)) as Hp2
      by (apply Z.pow_pos_nonneg; lia).
    rewrite str_app_cons, str_app_nil_l.
    destruct (read_digits_digits d1 (String c d2) 0 0 Hd1 Hnd) as (v1 & Hv1 & ->).
    cbn [String.length Nat.add d1]. rewrite Hdot.
    replace (read_digits d2 0 0) with (read_digits (d2 +:+ "") 0 0)
      by (by rewrite str_app_nil_r).
    destruct (read_digits_digits d2 EmptyString 0 0 Hd2 I) as (v2 & Hv2 & ->).
    cbn [String.length Nat.add d2]. eexists. split; [reflexivity|].
    fold d1 d2. rewrite !Z.mul_0_l, !Z.add_0_l.
    assert (10 ^ Z.of_nat (String.length d1)
            <= 10 ^ Z.of_nat (String.length (d1 +:+ String c d2))) as Hle.
    { apply Z.pow_le_mono_r; [lia|]. rewrite str_length_app. lia. }
    change (S (String.length d2')) with (String.length d2).
    change (S (String.length d1')) with (String.length d1).
    set (P1 := 10 ^ Z.of_nat (String.length d1)) in *.
    set (P2 := 10 ^ Z.of_nat (String.length d2)) in *.
    set (P := 10 ^ Z.of_nat (String.length (d1 +:+ String c d2))) in *.
    split.
    + apply Qle_shift_div_l; [unfold Qlt; simpl; lia|].
      rewrite Qmult_0_l. unfold Qle; simpl. nia.
    + apply Qlt_shift_div_r; [unfold Qlt; simpl; lia|].
      rewrite <- inject_Z_mult, <- Zlt_Qlt. nia.
Qed.

Lemma est_groups_in : groups_in est_groups EST_PAT.
Proof.
  unfold EST_PAT, seqs, spaces0, digits, ci. cbn [groups_in lit].
  repeat split.
  - intros s Hs _. by apply numeral_lang.
  - intros s _ [=].
Qed.

(** ** The extractor returns *)

Lemma estimate_returns ln :
  (String.length ln <= MAX_LINE)%nat → ∃ e, estimate ln = Some e.
Proof.
  intros Hlen. unfold estimate.
  destruct (search EST_PAT ln) as [m|] eqn:Hm; [|eauto].
  destruct (search_sound est_groups EST_PAT ln m est_groups_in Hm)
    as (Hsubj & Hcaps & Hsets).
  destruct (group_in est_groups ln 1 m Hsubj Hcaps)
    as (val & pre & post & -> & Hval & Hln); [apply Hsets; vm_compute; reflexivity|].
  assert (String.length val <= String.length ln)%nat as Hvlen
    by (rewrite Hln, !str_length_app; lia).
  clear pre post Hln.
  destruct (group_in est_groups ln 2 m Hsubj Hcaps)
    as (unit & pre2 & post2 & -> & _ & _); [apply Hsets; vm_compute; reflexivity|].
  simpl. destruct (Hval eq_refl) as (x & -> & Hx0 & Hx). simpl.
  unfold int_round.
  set (f := (if startswith_h (lower unit) then 60 else 1)%Q).
  destruct (Qle_bool FLOAT_OVERFLOW (x * f)) eqn:Hov; [exfalso | eauto].
  apply Qle_bool_iff in Hov.
  assert (x < inject_Z (10 ^ Z.of_nat MAX_LINE))%Q as Hx'.
  { eapply Qlt_le_trans; [exact Hx|]. rewrite <- Zle_Qle.
    apply Z.pow_le_mono_r; lia. }
  assert (x * f < inject_Z (10 ^ Z.of_nat MAX_LINE) * 61)%Q as Hlt.
  { apply Qmult_lt_compat_nonneg; [split; assumption|].
    unfold f. destruct (startswith_h _); split; reflexivity || discriminate. }
  assert (inject_Z (10 ^ Z.of_nat MAX_LINE) * 61 <= FLOAT_OVERFLOW)%Q as Hmax.
  { unfold Qle. apply Z.leb_le. vm_compute. reflexivity. }
  apply (Qlt_irrefl FLOAT_OVERFLOW).
  eapply Qle_lt_trans; [exact Hov|]. eapply Qlt_le_trans; eassumption.
Qed.

Lemma extract_lines_returns parse now uuid src lines acc :
  Forall (λ ln, (String.length ln <= MAX_LINE)%nat) lines →
  ∃ tasks, extract_lines parse now uuid src lines acc = Some tasks.
Proof.
  intros Hall. revert acc. induction Hall as [|ln lines Hln _ IH]; intros acc; simpl.
  - eauto.
  - destruct (is_candidate ln); [|apply IH]. unfold task_of_line.
    destruct (estimate_returns ln Hln) as [e ->]. simpl. apply IH.
Qed.

Lemma due_group_set ln m :
  search DUE_PAT ln = Some m → ∃ s, group 1 m = Some s.
Proof.
  intros Hm.
  destruct (search_sound any_group DUE_PAT ln m (groups_in_any _) Hm)
    as (Hsubj & Hcaps & Hsets).
  destruct (group_in any_group ln 1 m Hsubj Hcaps) as (s & pre & post & Hs & _);
    [apply Hsets; vm_compute; reflexivity | eauto].
Qed.

Lemma est_groups_set ln e :
  search EST_PAT ln = Some e →
  ∃ val unit x, group 1 e = Some val ∧ group 2 e = Some unit ∧
                float_of_str val = Some x.
Proof.
  intros Hm.
  destruct (search_sound est_groups EST_PAT ln e est_groups_in Hm)
    as (Hsubj & Hcaps & Hsets).
  destruct (group_in est_groups ln 1 e Hsubj Hcaps)
    as (val & pre1 & post1 & Hg1 & Hval & _); [apply Hsets; vm_compute; reflexivity|].
  destruct (group_in est_groups ln 2 e Hsubj Hcaps)
    as (unit & pre2 & post2 & Hg2 & _ & _); [apply Hsets; vm_compute; reflexivity|].
  destruct (Hval eq_refl) as (x & Hx & _). eauto 6.
Qed.

(** ** Action verbs *)

Lemma groups_in_plain Q r : plain r = true → groups_in Q r.
Proof.
  induction r; simpl; intros H; auto; try discriminate;
    try (apply andb_true_iff in H as [? ?]; auto).
Qed.

Lemma lang_lit w s : lang (lit w) s → lower s = lower w.
Proof.
  revert s. induction w as [|c w IH]; intros s; simpl.
  - by intros ->.
  - destruct w as [|c' w'].
    + intros (x & -> & Hx). simpl. apply Ascii.eqb_eq in Hx. by rewrite Hx.
    + intros (s1 & s2 & -> & (x & -> & Hx) & Hs2).
      rewrite str_app_cons, str_app_nil_l. simpl lower at 1.
      apply Ascii.eqb_eq in Hx. rewrite Hx, (IH _ Hs2). reflexivity.
Qed.

Lemma lang_alts_lit ws s :
  ws ≠ [] → lang (alts (lit <$> ws)) s → lower s ∈ lower <$> ws.
Proof.
  induction ws as [|w ws IH]; [done|]. intros _.
  destruct ws as [|w' ws'].
  - simpl. intros Hs. rewrite (lang_lit _ _ Hs). apply list_elem_of_here.
  - change (lang (Alt (lit w) (alts (lit <$> w' :: ws'))) s →
            lower s ∈ lower <$> w :: w' :: ws').
    intros [Hs|Hs].
    + rewrite (lang_lit _ _ Hs), fmap_cons. apply list_elem_of_here.
    + rewrite fmap_cons. apply list_elem_of_further. by apply IH.
Qed.

Lemma verb_group_in : groups_in verb_group VERB_PAT.
Proof.
  change VERB_PAT
    with (Seq WordB (Seq (Group 1 (alts (lit <$> ACTION_VERBS))) WordB)).
  split; [exact I|]. split; [|exact I]. split.
  - intros s Hs _. apply lang_alts_lit in Hs; [|discriminate].
    replace (lower <$> ACTION_VERBS) with ACTION_VERBS in Hs
      by (vm_compute; reflexivity).
    exact Hs.
  - apply groups_in_plain. vm_compute. reflexivity.
Qed.

Lemma candidate_verb ln :
  is_candidate ln = true →
  ∃ pre v post, ln = pre +:+ v +:+ post ∧ lower v ∈ ACTION_VERBS.
Proof.
  unfold is_candidate. destruct (search VERB_PAT ln) as [m|] eqn:Hm; [|discriminate].
  intros _.
  destruct (search_sound verb_group VERB_PAT ln m verb_group_in Hm)
    as (Hsubj & Hcaps & Hsets).
  destruct (group_in verb_group ln 1 m Hsubj Hcaps)
    as (v & pre & post & _ & Hv & Hln); [apply Hsets; vm_compute; reflexivity|].
  exists pre, v, post. auto.
Qed.

(** ** Trimming *)

Lemma lstrip_split s : ∃ l, s = l +:+ lstrip s ∧ all_space l = true.
Proof.
  induction s as [|c s (l & Hs & Hl)]; [by exists EmptyString|]. simpl.
  destruct (isspace c) eqn:Hc.
  - exists (String c l). rewrite str_app_cons, <- Hs. simpl. by rewrite Hc, Hl.
  - by exists EmptyString.
Qed.

Lemma lstrip_first s c : first_char (lstrip s) = Some c → isspace c = false.
Proof.
  induction s as [|a s IH]; simpl; [discriminate|].
  destruct (isspace a) eqn:Ha; [exact IH|]. simpl. by intros [= <-].
Qed.

Lemma lstrip_app_space l s : all_space l = true → lstrip (l +:+ s) = lstrip s.
Proof.
  induction l as [|c l IH]; [reflexivity|]. intros H. simpl in H.
  apply andb_true_iff in H as [Hc Hl]. rewrite str_app_cons. simpl.
  rewrite Hc. by apply IH.
Qed.

Lemma rstrip_all_space s : all_space s = true → rstrip s = EmptyString.
Proof.
  intros H. pose proof (rstrip_empty s) as He. rewrite H in He.
  by destruct (rstrip s).
Qed.

Lemma rstrip_split s : ∃ r, s = rstrip s +:+ r ∧ all_space r = true.
Proof.
  induction s as [|c s (r & Hs & Hr)]; [by exists EmptyString|]. simpl.
  destruct (rstrip s) as [|a b] eqn:Hrs.
  - rewrite str_app_nil_l in Hs. subst r. destruct (isspace c) eqn:Hc.
    + exists (String c s). simpl. by rewrite Hc, Hr.
    + by exists s.
  - exists r. rewrite str_app_cons, <- Hs. auto.
Qed.

Lemma rstrip_last s c : last_char (rstrip s) = Some c → isspace c = false.
Proof.
  induction s as [|a s IH]; simpl; [discriminate|].
  destruct (rstrip s) as [|b r] eqn:Hrs.
  - destruct (isspace a) eqn:Ha; simpl; [discriminate|]. by intros [= <-].
  - exact IH.
Qed.

Lemma rstrip_first s c :
  first_char s = Some c → isspace c = false → first_char (rstrip s) = Some c.
Proof.
  destruct s as [|a s]; simpl; [discriminate|]. intros [= ->] Hc.
  destruct (rstrip s); [by rewrite Hc|reflexivity].
Qed.

Lemma rstrip_app_space u r :
  u ≠ EmptyString → (∀ c, last_char u = Some c → isspace c = false) →
  all_space r = true → rstrip (u +:+ r) = u.
Proof.
  intros Hne Hlast Hr. induction u as [|c u IH]; [done|].
  rewrite str_app_cons. simpl. destruct u as [|c' u'].
  - rewrite str_app_nil_l, (rstrip_all_space r Hr).
    by rewrite (Hlast c eq_refl).
  - rewrite IH; [reflexivity | discriminate | exact Hlast].
Qed.

Lemma strip_trimmed s : trimmed s (strip s).
Proof.
  unfold strip. destruct (lstrip_split s) as (l & Hs & Hl).
  destruct (rstrip_split (lstrip s)) as (r & Hu & Hr).
  exists l, r. split; [by rewrite <- Hu|]. split; [assumption|].
  split; [assumption|]. split; [|apply rstrip_last].
  intros c Hc. destruct (lstrip s) as [|a u] eqn:Hls; [discriminate|].
  assert (isspace a = false) as Ha by (apply (lstrip_first s); by rewrite Hls).
  rewrite (rstrip_first (String a u) a eq_refl Ha) in Hc. by injection Hc as <-.
Qed.

Lemma trimmed_strip s u : trimmed s u → u = strip s.
Proof.
  intros (l & r & -> & Hl & Hr & Hfirst & Hlast). unfold strip.
  rewrite (lstrip_app_space l _ Hl). destruct u as [|c u'].
  - rewrite str_app_nil_l. symmetry. apply rstrip_all_space.
    by rewrite all_space_lstrip.
  - rewrite str_app_cons. simpl. rewrite (Hfirst c eq_refl).
    rewrite <- str_app_cons. symmetry. by apply rstrip_app_space.
Qed.

(** ** Lower case *)

Lemma lower_lowered s : lowered s (lower s).
Proof.
  split.
  - induction s as [|c s IH]; simpl; [reflexivity | by rewrite IH].
  - induction s as [|c s IH]; intros i a; simpl; [discriminate|].
    destruct i as [|i]; [by intros [= <-] | apply IH].
Qed.

Lemma lowered_lower s u : lowered s u → u = lower s.
Proof.
  revert u. induction s as [|c s IH]; intros u [Hlen Hget].
  - by destruct u.
  - destruct u as [|d u]; [discriminate|]. simpl. f_equal.
    + specialize (Hget 0%nat c eq_refl). by injection Hget as ->.
    + apply IH. split; [simpl in Hlen; lia|].
      intros i a Ha. apply (Hget (S i) a Ha).
Qed.

Lemma lower_char_ascii c :
  (in_range 65 90 c = true → code (lower_char c) = (code c + 32)%N) ∧
  ((code c < 128)%N → in_range 65 90 c = false → lower_char c = c).
Proof.
  destruct c as [[] [] [] [] [] [] [] []]; vm_compute; split; intros H1;
    try discriminate H1; try reflexivity; intros H2; try discriminate H2;
    reflexivity.
Qed.

(** ** White-space runs *)

Lemma collapse_from_space w s :
  all_space w = true → collapse_from true (w +:+ s) = collapse_from true s.
Proof.
  induction w as [|c w IH]; [reflexivity|]. intros H. simpl in H.
  apply andb_true_iff in H as [Hc Hw]. rewrite str_app_cons. simpl.
  rewrite Hc. by apply IH.
Qed.

Lemma collapse_from_word s :
  (∀ c, first_char s = Some c → isspace c = false) →
  collapse_from true s = collapse_from false s.
Proof.
  destruct s as [|c s]; [reflexivity|]. intros H. simpl.
  by rewrite (H c eq_refl).
Qed.

Lemma collapse_collapsed s :
  collapsed s (collapse_from false s) ∧ collapsed (lstrip s) (collapse_from true s).
Proof.
  induction s as [|c s [IHf IHt]]; [split; constructor|]. simpl.
  destruct (isspace c) eqn:Hc.
  - split; [|exact IHt].
    destruct (lstrip_split s) as (l & Hs & Hl).
    rewrite Hs at 1. rewrite <- str_app_cons.
    apply collapsed_run; [discriminate | simpl; by rewrite Hc, Hl | | exact IHt].
    apply lstrip_first.
  - split; by constructor.
Qed.

Lemma collapsed_collapse s k : collapsed s k → k = collapse_spaces s.
Proof.
  unfold collapse_spaces.
  induction 1 as [|c s u Hc _ IH|w s u Hne Hw Hs _ IH]; [reflexivity| |].
  - simpl. by rewrite Hc, IH.
  - destruct w as [|c w]; [done|]. simpl in Hw.
    apply andb_true_iff in Hw as [Hc Hw]. rewrite str_app_cons. simpl.
    by rewrite Hc, (collapse_from_space w s Hw), (collapse_from_word s Hs), IH.
Qed.

Lemma normalised_title_key t k : normalised (title t) k ↔ k = title_key t.
Proof.
  unfold title_key. split.
  - intros (u1 & u2 & H1 & H2 & H3).
    apply trimmed_strip in H1. apply lowered_lower in H2.
    apply collapsed_collapse in H3. by subst.
  - intros ->. exists (strip (title t)), (lower (strip (title t))).
    split; [apply strip_trimmed|]. split; [apply lower_lowered|].
    apply collapse_collapsed.
Qed.

(** ** The first characters and the line feeds *)

Lemma prefix_first_chars n u : first_chars n u (prefix n u).
Proof.
  revert u. induction n as [|n IH]; intros u.
  - exists u. split; reflexivity.
  - destruct u as [|c u]; [exists EmptyString; split; reflexivity|].
    destruct (IH u) as (rest & Hu & Hlen). exists rest. simpl.
    rewrite str_app_cons, <- Hu, Hlen. split; reflexivity.
Qed.

Lemma replace_newlines_replaced p : newlines_replaced p (replace_newlines p).
Proof.
  split.
  - induction p as [|c p IH]; simpl; [reflexivity | by rewrite IH].
  - induction p as [|c p IH]; intros i a; simpl; [discriminate|].
    destruct i as [|i]; [by intros [= <-] | apply IH].
Qed.

(** * The scheduler's claims *)

(** C1 (as stated, refuted).  With two undated tasks of 90 minutes and
    a cap of two hours, the first task leaves the cursor at 10:50 and
    the second one starts again from 09:00: the cursor is not carried
    from one task to the next. *)
Lemma cursor_not_carried :
  ∃ tr, plan_trace default_config now_8am 2 100 [task_a; task_b] = Some tr ∧
        ¬ cursor_carried tr.
Proof.
  eexists. split; [vm_compute; reflexivity|].
  intros H. specialize (H 0%nat _ _ eq_refl eq_refl). vm_compute in H. discriminate.
Qed.

(** C1 (amended).  Every task enters its placement loop with the cursor
    at [next_work_start(now)]; what is carried from one task to the next
    is the day budget and the list of blocks. *)
Theorem cursor_reset_per_task cfg now daily_hours fuel tasks tr :
  plan_trace cfg now daily_hours fuel tasks = Some tr →
  length tr = length tasks ∧
  Forall (λ p, cursor p.1 = next_work_start cfg now) tr ∧
  (∀ p, tr !! 0%nat = Some p → day_budget p.1 = ∅ ∧ blocks p.1 = []) ∧
  (∀ i p q, tr !! i = Some p → tr !! S i = Some q →
     day_budget q.1 = day_budget p.2 ∧ blocks q.1 = blocks p.2).
Proof.
  unfold plan_trace. intros Hrun.
  destruct (for_tasks cfg now daily_hours fuel (by_priority now tasks) ∅ [])
    as [[tr' out]|] eqn:Hf; [|discriminate].
  injection Hrun as <-.
  destruct (for_tasks_trace _ _ _ _ _ _ _ _ _ Hf) as (Hlen & Hrest).
  split; [|exact Hrest].
  rewrite Hlen. apply Permutation_length, by_priority_perm.
Qed.

Lemma cursor_reset_per_task_witness :
  ∃ tr, plan_trace default_config now_8am 2 100 [task_a; task_b] = Some tr ∧
    length tr = 2%nat ∧
    Forall (λ p, cursor p.1 = next_work_start default_config now_8am) tr ∧
    (∀ p, tr !! 0%nat = Some p → day_budget p.1 = ∅ ∧ blocks p.1 = []) ∧
    (∀ i p q, tr !! i = Some p → tr !! S i = Some q →
       day_budget q.1 = day_budget p.2 ∧ blocks q.1 = blocks p.2).
Proof.
  eexists. split; [vm_compute; reflexivity|].
  apply (cursor_reset_per_task default_config now_8am 2 100 [task_a; task_b]).
  vm_compute. reflexivity.
Defined.

(** C2.  In a plan, the minutes of the blocks that start on one calendar
    date, over all tasks, never exceed [daily_hours * 60]; the length of
    every block is a whole number of minutes. *)
Theorem daily_cap_respected cfg now daily_hours fuel tasks bs b :
  plan_blocks cfg now daily_hours fuel tasks = Some bs → b ∈ bs →
  end_ b - start b = minutes (block_minutes b) ∧
  (inject_Z (minutes_on (date (start b)) bs) <= daily_hours * 60)%Q.
Proof.
  intros Hrun Hb.
  destruct (plan_blocks_budget_inv _ _ _ _ _ _ Hrun) as (budget & _ & Hcap & Hne & Hex).
  split; [by apply (proj1 (Forall_forall _ _) Hex)|].
  assert (0 < cap_of daily_hours) as Hpos by (apply Hne; intros ->; inversion Hb).
  apply Qle_trans with (inject_Z (cap_of daily_hours)).
  - rewrite <- Zle_Qle. specialize (Hcap (date (start b))). lia.
  - by apply int_of_Q_le.
Qed.

Lemma daily_cap_respected_witness :
  ∃ bs b, plan_blocks default_config now_8am 2 100 [task_a; task_b] = Some bs ∧
    b ∈ bs ∧ end_ b - start b = minutes (block_minutes b) ∧
    (inject_Z (minutes_on (date (start b)) bs) <= 2 * 60)%Q.
Proof.
  eexists. eexists. split; [vm_compute; reflexivity|].
  split; [apply list_elem_of_here|].
  apply (daily_cap_respected default_config now_8am 2 100 [task_a; task_b]);
    [vm_compute; reflexivity | apply list_elem_of_here].
Defined.

(** C3 (as stated, refuted).  A task due in forty days and an undated
    task of the same priority: the undated one is processed first. *)
Lemma undated_before_dated :
  by_priority now_8am [task_far; task_a] = [task_a; task_far] ∧
  ¬ undated_last (by_priority now_8am [task_far; task_a]).
Proof.
  split; [vm_compute; reflexivity|].
  intros H. specialize (H 0%nat 1%nat task_a task_far eq_refl eq_refl).
  discriminate H; [lia | reflexivity | reflexivity].
Qed.

(** C3 (amended).  The tasks are processed in the stable order of the
    key (priority, due date), where a missing due date counts as thirty
    days after now: the processing order is a permutation of the input,
    ascending in the key, and keeps the input order of equal keys; so an
    undated task is followed, within its priority, only by undated tasks
    and tasks due at or after now + 30 days. *)
Theorem by_priority_stable_sort now tasks :
  by_priority now tasks ≡ₚ tasks ∧
  StronglySorted (λ a b, key_le (sort_key now a) (sort_key now b))
    (by_priority now tasks) ∧
  (∀ k, filter (λ t, sort_key now t = k) (by_priority now tasks) =
        filter (λ t, sort_key now t = k) tasks) ∧
  (∀ i j a b d, by_priority now tasks !! i = Some a →
     by_priority now tasks !! j = Some b → (i < j)%nat →
     priority a = priority b → due a = None → due b = Some d →
     now + days 30 <= d).
Proof.
  split; [apply by_priority_perm|]. split; [apply by_priority_sorted|].
  split; [intros k; apply by_priority_filter|].
  intros i j a b d Ha Hb Hij Hp Hda Hdb.
  pose proof (by_priority_sorted now tasks) as Hs.
  pose proof (sorted_lookup _ _ i j a b Hs Ha Hb Hij) as Hk. clear Hs.
  rename Hk into Hs.
  unfold key_le, sort_key in Hs. simpl in Hs. rewrite Hda, Hdb in Hs. simpl in Hs.
  lia.
Qed.

(** C4 (the code at the failing input).  With the working day ending at
    23:00 and a task of 150 minutes planned at 22:10 sharp, the first
    block ends at 23:00, the second runs from 23:10 to midnight (its end
    has time 00:00, which the test against [WORK_END] lets through), and
    the third starts at 00:10, before [WORK_START]. *)
Theorem block_before_work_start :
  ∃ b1 b2 b3,
    plan_blocks late_config now_2210 12 100 [task_long] = Some [b1; b2; b3] ∧
    (time_of (start b2), time_of (end_ b2)) = (hours 23 + minutes 10, 0) ∧
    time_of (start b3) = minutes 10 ∧
    time_of (start b3) < time_us (WORK_START late_config) ∧
    ¬ block_ok late_config b3.
Proof.
  do 3 eexists. split; [vm_compute; reflexivity|].
  split; [vm_compute; reflexivity|]. split; [vm_compute; reflexivity|].
  split; [vm_compute; reflexivity|].
  intros (_ & _ & H & _). vm_compute in H. apply H. reflexivity.
Qed.

(** C5.  Every block of a plan belongs to a task of the list, carries
    that task's due date, and ends no later than it. *)
Theorem blocks_end_by_due cfg now daily_hours fuel tasks bs b :
  plan_blocks cfg now daily_hours fuel tasks = Some bs → b ∈ bs →
  ∃ t, t ∈ tasks ∧ task_id b = id t ∧ blk_due b = due t ∧
       ∀ d, due t = Some d → end_ b <= d.
Proof.
  intros Hrun Hb.
  apply (proj1 (Forall_forall _ _) (plan_blocks_owned _ _ _ _ _ _ Hrun) b Hb).
Qed.

Lemma blocks_end_by_due_witness :
  ∃ bs b, plan_blocks default_config now_8am 2 100 [task_a; task_dated] = Some bs ∧
    b ∈ bs ∧ blk_due b = Some (now_8am + days 2) ∧
    ∃ t, t ∈ [task_a; task_dated] ∧ task_id b = id t ∧ blk_due b = due t ∧
         ∀ d, due t = Some d → end_ b <= d.
Proof.
  eexists. eexists. split; [vm_compute; reflexivity|].
  split; [apply list_elem_of_here|]. split; [reflexivity|].
  eapply (blocks_end_by_due default_config now_8am 2 100 [task_a; task_dated]);
    [vm_compute; reflexivity | apply list_elem_of_here].
Defined.


Lemma default_config_valid : valid_config default_config.
Proof. repeat split; vm_compute; congruence. Qed.



(** * The extractor's claims *)

(** C6.  De-duplication keeps the order of its input; a task is kept
    exactly when no task before it has the same key; the keys kept are
    pairwise different and every input key is represented; and
    de-duplicating the result changes nothing.  The key of a task is
    its title trimmed of the white space at its two ends, then put in
    lower case, then with every run of white space replaced by one
    space, and nothing else is: lower case turns the letters A to Z
    into a to z and leaves the other ASCII characters as they are. *)
Theorem dedupe_first_occurrences (tasks : list Task) :
  dedupe tasks `sublist_of` tasks ∧
  (∀ l t, dedupe (l ++ [t]) =
          if decide (title_key t ∈ title_key <$> l) then dedupe l
          else dedupe l ++ [t]) ∧
  NoDup (title_key <$> dedupe tasks) ∧
  (∀ k, k ∈ title_key <$> tasks ↔ k ∈ title_key <$> dedupe tasks) ∧
  dedupe (dedupe tasks) = dedupe tasks ∧
  (∀ t k, normalised (title t) k ↔ k = title_key t) ∧
  (∀ c, in_range 65 90 c = true → code (lower_char c) = (code c + 32)%N) ∧
  (∀ c, (code c < 128)%N → in_range 65 90 c = false → lower_char c = c).
Proof.
  split; [apply dedupe_sublist|]. split; [apply dedupe_snoc|].
  split; [apply dedupe_keys_nodup|]. split.
  { intros k. split; [apply dedupe_keys_cover | apply dedupe_keys_sub]. }
  split; [apply dedupe_fixed, dedupe_keys_nodup|].
  split; [apply normalised_title_key|].
  split; intros c; apply lower_char_ascii.
Qed.

Lemma dedupe_first_occurrences_witness :
  title <$> dup_tasks = ["Read A"; "x"; " read   a "] ∧
  title_key <$> dup_tasks = ["read a"; "x"; "read a"] ∧
  dedupe dup_tasks = [sample_task "Read A" 30 None 3; sample_task "x" 30 None 3] ∧
  dedupe dup_tasks `sublist_of` dup_tasks ∧
  (∀ l t, dedupe (l ++ [t]) =
          if decide (title_key t ∈ title_key <$> l) then dedupe l
          else dedupe l ++ [t]) ∧
  NoDup (title_key <$> dedupe dup_tasks) ∧
  (∀ k, k ∈ title_key <$> dup_tasks ↔ k ∈ title_key <$> dedupe dup_tasks) ∧
  dedupe (dedupe dup_tasks) = dedupe dup_tasks ∧
  (∀ t k, normalised (title t) k ↔ k = title_key t) ∧
  (∀ c, in_range 65 90 c = true → code (lower_char c) = (code c + 32)%N) ∧
  (∀ c, (code c < 128)%N → in_range 65 90 c = false → lower_char c = c).
Proof.
  split; [reflexivity|]. split; [vm_compute; reflexivity|].
  split; [vm_compute; reflexivity|].
  apply (dedupe_first_occurrences dup_tasks).
Defined.

(** C7.  A text that is not blank and none of whose lines has an action
    verb gives exactly one task, with an estimate of 60 and no due date.
    Its title is "Review: ", then the first 60 characters (all of them
    when there are fewer) of the text trimmed of the white space at its
    two ends, every line feed among them replaced by a space, then
    "..." exactly when the text as given has more than 60 characters. *)
Theorem fallback_task parse now uuid (text source_name : string) :
  all_space text = false →
  Forall (λ ln, is_candidate ln = false) (nonblank_lines text) →
  ∃ u p b, trimmed text u ∧ first_chars 60 u p ∧ newlines_replaced p b ∧
    rule_based_extract parse now uuid text source_name =
    Some [ {| id := uuid 0%nat;
              title := "Review: " +:+ b +:+
                       (if (60 <? String.length text)%nat then "..." else "");
              due := None; est_minutes := Some 60; tag := None; priority := 3;
              source := Some source_name |} ].
Proof.
  intros Hne Hlines.
  exists (strip text), (prefix 60 (strip text)),
         (replace_newlines (prefix 60 (strip text))).
  split; [apply strip_trimmed|]. split; [apply prefix_first_chars|].
  split; [apply replace_newlines_replaced|].
  unfold rule_based_extract.
  rewrite (extract_lines_no_candidate _ _ _ _ _ _ Hlines). simpl.
  rewrite strip_empty, Hne. reflexivity.
Qed.

Lemma fallback_task_witness :
  (String.length text_padded, String.length (strip text_padded)) = (61, 21)%nat ∧
  fmap (M := list) title <$> rule_based_extract no_resolver sample_clock sample_uuid text_padded "pasted"
  = Some ["Review: Groceries and laundry..."] ∧
  (String.length text_long, String.length (strip text_long)) = (88, 83)%nat ∧
  rule_based_extract no_resolver sample_clock sample_uuid text_long "pasted" =
  Some [ {| id := "0a1b2c3d";
            title := "Review: Groceries and laundry Call mom about the holiday plans, then...";
            due := None; est_minutes := Some 60; tag := None; priority := 3;
            source := Some "pasted" |} ] ∧
  ∃ u p b, trimmed text_long u ∧ first_chars 60 u p ∧ newlines_replaced p b ∧
    rule_based_extract no_resolver sample_clock sample_uuid text_long "pasted" =
    Some [ {| id := sample_uuid 0%nat;
              title := "Review: " +:+ b +:+
                       (if (60 <? String.length text_long)%nat then "..." else "");
              due := None; est_minutes := Some 60; tag := None; priority := 3;
              source := Some "pasted" |} ].
Proof.
  split; [vm_compute; reflexivity|]. split; [vm_compute; reflexivity|].
  split; [vm_compute; reflexivity|]. split; [vm_compute; reflexivity|].
  apply (fallback_task no_resolver sample_clock sample_uuid text_long "pasted");
    [vm_compute; reflexivity|].
  replace (nonblank_lines text_long)
    with ["Groceries and laundry";
          "Call mom about the holiday plans, then book the train tickets"]
    by (vm_compute; reflexivity).
  repeat (constructor; [vm_compute; reflexivity|]). constructor.
Defined.

(** C8 (as stated, refuted).  The line "Review chapter 0 methods" is a
    candidate, the estimate pattern matches "0 m" in it, and the task
    gets an estimate of 0 minutes. *)
Lemma zero_estimate :
  ∃ t, rule_based_extract no_resolver sample_clock sample_uuid text_zero "pasted"
         = Some [t] ∧
       est_minutes t = Some 0 ∧ ¬ task_invariant t.
Proof.
  eexists. split; [vm_compute; reflexivity|]. split; [reflexivity|].
  intros [_ H]. specialize (H 0 eq_refl). lia.
Qed.

(** C8 (amended).  Every task the extractor makes has a priority from 1
    to 4 and an estimate that is present and at least 0.  Without a
    candidate line the estimate is 60.  With one, every task is titled
    with its line, and its estimate is 60 when the estimate pattern
    does not match the line; when it matches a numeral of value x with
    a unit of factor f (60 for a unit that starts with h, else 1), the
    estimate is 0 if x is 0, at least 1 if x f is 1 or more, and at
    most 1 if x f is below 1. *)
Theorem extracted_tasks_ok parse now uuid (text source_name : string) tasks :
  rule_based_extract parse now uuid text source_name = Some tasks →
  Forall extracted_ok tasks ∧
  (existsb is_candidate (nonblank_lines text) = false →
     Forall (λ t, est_minutes t = Some 60) tasks) ∧
  (existsb is_candidate (nonblank_lines text) = true →
     title <$> tasks = List.filter is_candidate (nonblank_lines text) ∧
     Forall (λ t, ∃ e, est_minutes t = Some e ∧ est_from (title t) e) tasks).
Proof.
  unfold rule_based_extract.
  destruct (extract_lines parse now uuid source_name (nonblank_lines text) [])
    as [ts|] eqn:Hts; [|discriminate].
  simpl. intros [= <-].
  pose proof (extract_lines_ok _ _ _ _ _ _ _ (List.Forall_nil _) Hts) as Hok.
  destruct (extract_lines_shape _ _ _ _ _ _ _ Hts) as (new & -> & Ht & Hm & _).
  simpl in *. split; [|split].
  - destruct new as [|t new]; [|assumption].
    destruct (nonempty (strip text)); [|constructor].
    constructor; [|constructor]. split; simpl; [lia|].
    exists 60. split; [reflexivity | lia].
  - intros Hex. rewrite (existsb_false_filter _ _ Hex) in Ht.
    destruct new as [|t new]; [|discriminate].
    destruct (nonempty (strip text)); repeat constructor.
  - intros Hex. destruct new as [|t new].
    + exfalso. apply existsb_exists in Hex as (ln & Hin & Hc).
      assert (In ln (List.filter is_candidate (nonblank_lines text))) as Hf
        by (apply filter_In; auto).
      rewrite <- Ht in Hf. destruct Hf.
    + split; [exact Ht|]. apply Forall_lookup. intros i t' Hi.
      by destruct (Hm i t' Hi) as (_ & _ & _ & He & _).
Qed.

Lemma extracted_tasks_ok_witness :
  ∃ tasks,
    rule_based_extract no_resolver sample_clock sample_uuid text_estimates "pasted"
    = Some tasks ∧
    est_minutes <$> tasks = [Some 45; Some 0; Some 60] ∧
    Forall extracted_ok tasks ∧
    (existsb is_candidate (nonblank_lines text_estimates) = false →
       Forall (λ t, est_minutes t = Some 60) tasks) ∧
    (existsb is_candidate (nonblank_lines text_estimates) = true →
       title <$> tasks = List.filter is_candidate (nonblank_lines text_estimates) ∧
       Forall (λ t, ∃ e, est_minutes t = Some e ∧ est_from (title t) e) tasks).
Proof.
  eexists. split; [vm_compute; reflexivity|]. split; [reflexivity|].
  apply (extracted_tasks_ok no_resolver sample_clock sample_uuid text_estimates
           "pasted").
  vm_compute. reflexivity.
Defined.

(** C9 (the expected due date is not produced).  Take a resolver that
    maps every phrase naming "Oct 3" to October 3 at 23:59.  The line
    still gives one task with tag CS61 and 120 minutes, but the phrase
    the extractor hands to the resolver is "Lab 5", and the task has no
    due date. *)
Lemma sample_line_due_missing :
  resolve_oct3 "Fri Oct 3 by 11:59pm" = Some oct3_2359 ∧
  (group 1 <$> search DUE_PAT sample_line) = Some (Some "Lab 5") ∧
  ∃ t, rule_based_extract resolve_oct3 sample_clock sample_uuid sample_line "pasted"
         = Some [t] ∧
       tag t = Some "CS61" ∧ est_minutes t = Some 120 ∧
       due t = None ∧ due t ≠ Some oct3_2359.
Proof.
  split; [vm_compute; reflexivity|]. split; [vm_compute; reflexivity|].
  eexists. split; [vm_compute; reflexivity|].
  repeat split; try reflexivity. discriminate.
Qed.

(** C9 (the code at the failing input).  For the sample line the
    extractor makes exactly one task, titled with the line, with tag
    CS61 and an estimate of 120 minutes.  The first match of the
    due-phrase pattern starts at "Submit" and its group is "Lab 5": the
    due date of the task is what the date resolver returns for "Lab 5",
    whatever the resolver is, and the priority follows from it.  From
    "on Fri Oct 3" onwards the same pattern matches with group
    "Fri Oct 3", the date the line names, without its time of day. *)
Theorem sample_line_task parse now uuid (source_name : string) :
  (group 1 <$> search DUE_PAT sample_line) = Some (Some "Lab 5") ∧
  (group 1 <$> search DUE_PAT "on Fri Oct 3 by 11:59pm (~2h).")
  = Some (Some "Fri Oct 3") ∧
  rule_based_extract parse now uuid sample_line source_name =
  Some [ {| id := uuid 0%nat; title := sample_line; due := parse "Lab 5";
            est_minutes := Some 120; tag := Some "CS61";
            priority := priority_of (now 0%nat) (parse "Lab 5");
            source := Some source_name |} ].
Proof.
  split; [vm_compute; reflexivity|]. split; [vm_compute; reflexivity|].
  unfold rule_based_extract.
  assert (nonblank_lines sample_line = [sample_line]) as -> by (vm_compute; reflexivity).
  unfold extract_lines.
  assert (is_candidate sample_line = true) as -> by (vm_compute; reflexivity).
  unfold task_of_line, due_of, parse_possible_date.
  assert (search DUE_PAT sample_line =
          Some {| subject := sample_line; m_start := 0; m_end := 12;
                  m_groups := [(1%nat, (7%nat, 12%nat))] |}) as ->
    by (vm_compute; reflexivity).
  assert (estimate sample_line = Some 120) as -> by (vm_compute; reflexivity).
  assert (group0 <$> search TAG_PAT sample_line = Some "CS61") as ->
    by (vm_compute; reflexivity).
  reflexivity.
Qed.

(** * Further properties of the scheduler *)

(** X1.  When the working day has valid times and starts before it
    ends, [next_work_start] returns the earliest instant, at or after
    its argument, whose time of day is at or after [WORK_START] and
    before [WORK_END]; applying it twice changes nothing more. *)
Theorem next_work_start_least cfg after :
  valid_config cfg → time_us (WORK_START cfg) < time_us (WORK_END cfg) →
  after <= next_work_start cfg after ∧
  in_hours cfg (next_work_start cfg after) ∧
  (∀ y, after <= y → in_hours cfg y → next_work_start cfg after <= y) ∧
  next_work_start cfg (next_work_start cfg after) = next_work_start cfg after.
Proof.
  intros Hcfg Hlt. split; [by apply next_work_start_ge|].
  split; [by apply next_work_start_in_hours|].
  split; [intros y; by apply next_work_start_lower|].
  by apply next_work_start_fixed, next_work_start_in_hours.
Qed.

Lemma next_work_start_least_witness :
  next_work_start default_config now_2210 = days 101 + hours 9 ∧
  now_2210 <= next_work_start default_config now_2210 ∧
  in_hours default_config (next_work_start default_config now_2210) ∧
  (∀ y, now_2210 <= y → in_hours default_config y →
     next_work_start default_config now_2210 <= y) ∧
  next_work_start default_config (next_work_start default_config now_2210)
  = next_work_start default_config now_2210.
Proof.
  split; [vm_compute; reflexivity|].
  apply (next_work_start_least default_config now_2210);
    [exact default_config_valid | vm_compute; reflexivity].
Defined.

(** X2.  When the working day has valid times and ends at 22:59 or
    earlier, every block of a plan lasts at most [BLOCK_MINUTES], starts
    at or after [WORK_START], ends at or before [WORK_END] and ends on
    the date on which it starts. *)
Theorem blocks_within_hours cfg now daily_hours fuel tasks bs :
  valid_config cfg → time_us (WORK_END cfg) + minutes 60 < DAY →
  plan_blocks cfg now daily_hours fuel tasks = Some bs →
  Forall (block_in_hours cfg) bs.
Proof. intros Hcfg Hend. by apply plan_blocks_hours. Qed.

Lemma blocks_within_hours_witness :
  ∃ bs, plan_blocks default_config now_2210 12 100 [task_long] = Some bs ∧
        length bs = 3%nat ∧ Forall (block_in_hours default_config) bs.
Proof.
  eexists. split; [vm_compute; reflexivity|]. split; [reflexivity|].
  apply (blocks_within_hours default_config now_2210 12 100 [task_long]);
    [exact default_config_valid | vm_compute; reflexivity | vm_compute; reflexivity].
Defined.

(** X3.  The task processed at position [i] enters its loop with
    max(30, est_minutes or 60) minutes to place.  The loop appends
    blocks of that task only: each copies the task's id, title with
    tag, due date and source and lasts from 1 to 50 minutes, and their
    minutes add up to what the loop took off [remaining], which never
    falls below zero.  The loop ends with nothing left to place or with
    the cursor past the task's cutoff.  The plan is the block list at
    the last exit. *)
Theorem task_minutes_accounted cfg now daily_hours fuel tasks tr i t p :
  plan_trace cfg now daily_hours fuel tasks = Some tr →
  by_priority now tasks !! i = Some t → tr !! i = Some p →
  remaining p.1 = Z.max 30 (est_or_default t) ∧
  (∃ new, blocks p.2 = blocks p.1 ++ new ∧ Forall (block_of t) new ∧
          Zsum (block_minutes <$> new)
          = Z.max 30 (est_or_default t) - remaining p.2) ∧
  0 <= remaining p.2 ∧
  (remaining p.2 = 0 ∨ last_allowed_of now t < cursor p.2) ∧
  plan_blocks cfg now daily_hours fuel tasks = Some (final_blocks tr).
Proof.
  unfold plan_trace, plan_blocks. intros Hrun Ht Hp.
  destruct (for_tasks cfg now daily_hours fuel (by_priority now tasks) ∅ [])
    as [[tr' out]|] eqn:Hf; [|discriminate].
  injection Hrun as <-.
  destruct (for_tasks_lookup _ _ _ _ _ _ _ _ _ _ _ _ Hf Ht Hp)
    as [(b' & bs' & Hentry) Hw].
  assert (remaining p.1 = Z.max 30 (est_or_default t)) as Hrem
    by (by rewrite Hentry).
  destruct (while_loop_inv cfg now daily_hours (placed t p.1) t
              (placed_step cfg now daily_hours t p.1) fuel p.1 p.2)
    as [(new & Hbs & Hof & Hsum & Hpos) Hc]; [apply placed_refl; lia | exact Hw |].
  split; [exact Hrem|]. split; [exists new; rewrite <- Hrem; auto|].
  split; [exact Hpos|]. split.
  - unfold loop_cond in Hc. apply andb_false_iff in Hc as [Hc|Hc].
    + apply Z.ltb_ge in Hc. left. lia.
    + apply Z.leb_gt in Hc. by right.
  - simpl. f_equal. apply (for_tasks_final _ _ _ _ _ _ _ _ _ Hf).
Qed.

Lemma task_minutes_accounted_witness :
  ∃ tr p, plan_trace default_config now_8am 2 100 [task_a; task_b] = Some tr ∧
    tr !! 1%nat = Some p ∧
    remaining p.1 = Z.max 30 (est_or_default task_b) ∧
    (∃ new, blocks p.2 = blocks p.1 ++ new ∧ Forall (block_of task_b) new ∧
            Zsum (block_minutes <$> new)
            = Z.max 30 (est_or_default task_b) - remaining p.2) ∧
    0 <= remaining p.2 ∧
    (remaining p.2 = 0 ∨ last_allowed_of now_8am task_b < cursor p.2) ∧
    plan_blocks default_config now_8am 2 100 [task_a; task_b]
    = Some (final_blocks tr).
Proof.
  eexists. eexists. split; [vm_compute; reflexivity|]. split; [reflexivity|].
  apply (task_minutes_accounted default_config now_8am 2 100 [task_a; task_b]
           _ 1%nat task_b); [vm_compute; reflexivity | reflexivity | reflexivity].
Defined.

(** X4.  Under a valid configuration no block starts before now: every
    block of a plan belongs to a task of the list and starts at or after
    [next_work_start(now)], which is not before now, and at or before
    the cutoff of its task, one hour before the due date or fourteen
    days after now. *)
Theorem blocks_within_horizon cfg now daily_hours fuel tasks bs b :
  valid_config cfg →
  plan_blocks cfg now daily_hours fuel tasks = Some bs → b ∈ bs →
  now <= next_work_start cfg now ∧
  ∃ t, t ∈ tasks ∧ task_id b = id t ∧
       next_work_start cfg now <= start b <= last_allowed_of now t.
Proof.
  intros Hcfg Hrun Hb. split; [by apply next_work_start_ge|].
  apply (proj1 (Forall_forall _ _)
           (plan_blocks_horizon cfg now daily_hours tasks Hcfg fuel bs Hrun) b Hb).
Qed.

Lemma blocks_within_horizon_witness :
  ∃ bs b, plan_blocks default_config now_8am 2 100 [task_a; task_dated] = Some bs ∧
    b ∈ bs ∧ start b = days 100 + hours 9 ∧
    now_8am <= next_work_start default_config now_8am ∧
    ∃ t, t ∈ [task_a; task_dated] ∧ task_id b = id t ∧
         next_work_start default_config now_8am <= start b
           <= last_allowed_of now_8am t.
Proof.
  eexists. eexists. split; [vm_compute; reflexivity|].
  split; [apply list_elem_of_here|]. split; [vm_compute; reflexivity|].
  eapply (blocks_within_horizon default_config now_8am 2 100 [task_a; task_dated]);
    [exact default_config_valid | vm_compute; reflexivity | apply list_elem_of_here].
Defined.

(** X5.  Under a valid configuration the blocks one task adds are in
    the order of time and do not overlap: each starts before it ends,
    and at least ten minutes lie between the end of a block and the
    start of every later block of the same task. *)
Theorem task_blocks_in_order cfg now daily_hours fuel tasks tr i t p :
  valid_config cfg →
  plan_trace cfg now daily_hours fuel tasks = Some tr →
  by_priority now tasks !! i = Some t → tr !! i = Some p →
  ∃ new, blocks p.2 = blocks p.1 ++ new ∧
         StronglySorted break_between new ∧
         Forall (λ b, next_work_start cfg now <= start b ∧ start b < end_ b) new.
Proof.
  unfold plan_trace. intros Hcfg Hrun Ht Hp.
  destruct (for_tasks cfg now daily_hours fuel (by_priority now tasks) ∅ [])
    as [[tr' out]|] eqn:Hf; [|discriminate].
  injection Hrun as <-.
  destruct (for_tasks_lookup _ _ _ _ _ _ _ _ _ _ _ _ Hf Ht Hp)
    as [(b' & bs' & Hentry) Hw].
  destruct (while_loop_inv cfg now daily_hours (in_order p.1) t
              (λ s, in_order_step cfg now daily_hours t p.1 s Hcfg) fuel p.1 p.2)
    as [(new & Hbs & Hsort & Hall & _) _]; [apply in_order_refl | exact Hw |].
  exists new. split; [exact Hbs|]. split; [exact Hsort|].
  eapply Forall_impl; [exact Hall|]. intros b (Hs & Hlt & _).
  rewrite Hentry in Hs. simpl in Hs. auto.
Qed.

Lemma task_blocks_in_order_witness :
  ∃ tr p, plan_trace default_config now_8am 2 100 [task_a; task_b] = Some tr ∧
    tr !! 0%nat = Some p ∧
    ∃ new, blocks p.2 = blocks p.1 ++ new ∧
           StronglySorted break_between new ∧
           Forall (λ b, next_work_start default_config now_8am <= start b ∧
                        start b < end_ b) new.
Proof.
  eexists. eexists. split; [vm_compute; reflexivity|]. split; [reflexivity|].
  eapply (task_blocks_in_order default_config now_8am 2 100 [task_a; task_b]
            _ 0%nat task_a);
    [exact default_config_valid | vm_compute; reflexivity | reflexivity | reflexivity].
Defined.

(** X6.  A task that is not past its cutoff is given a block that
    starts at [next_work_start(now)] whenever a block of full length
    fits between that instant and [WORK_END] and the minutes planned so
    far on that date are below the cap, whatever blocks the tasks before
    it were given: blocks of different tasks can start at the same
    instant. *)
Theorem task_starts_at_first_instant cfg now daily_hours fuel tasks tr i t p :
  valid_config cfg →
  plan_trace cfg now daily_hours fuel tasks = Some tr →
  by_priority now tasks !! i = Some t → tr !! i = Some p →
  next_work_start cfg now <= last_allowed_of now t →
  time_of (next_work_start cfg now) + minutes BLOCK_MINUTES
    <= time_us (WORK_END cfg) →
  minutes_on (date (next_work_start cfg now)) (blocks p.1) < cap_of daily_hours →
  ∃ b new, blocks p.2 = blocks p.1 ++ b :: new ∧ task_id b = id t ∧
           start b = next_work_start cfg now.
Proof.
  intros Hcfg Hrun Ht Hp Hla Hfit Hfree.
  pose proof (plan_trace_budget _ _ _ _ _ _ Hrun) as Hb.
  destruct (proj1 (Forall_lookup _ _) Hb i p Hp) as (Hbud & _).
  unfold plan_trace in Hrun.
  destruct (for_tasks cfg now daily_hours fuel (by_priority now tasks) ∅ [])
    as [[tr' out]|] eqn:Hf; [|discriminate].
  injection Hrun as <-.
  destruct (for_tasks_lookup _ _ _ _ _ _ _ _ _ _ _ _ Hf Ht Hp)
    as [(b' & bs' & Hentry) Hw].
  assert (cursor p.1 = next_work_start cfg now) as Hcur by (by rewrite Hentry).
  assert (0 < remaining p.1) as Hrem by (rewrite Hentry; simpl; lia).
  assert (loop_cond now t p.1 = true) as Hc.
  { unfold loop_cond. apply andb_true_iff. split; [by apply Z.ltb_lt|].
    apply Z.leb_le. by rewrite Hcur. }
  destruct (while_loop_first cfg now daily_hours fuel t p.1 p.2 Hc Hw) as [fuel' Hw'].
  destruct (loop_body_emits cfg daily_hours t p.1 Hcfg Hrem)
    as (b & Hbs & Hid & Hst & Hpos).
  { by rewrite Hcur. }
  { rewrite Hcur, Hbud. exact Hfree. }
  destruct (while_loop_inv cfg now daily_hours
              (placed t (loop_body cfg daily_hours t p.1)) t
              (placed_step cfg now daily_hours t (loop_body cfg daily_hours t p.1))
              fuel' (loop_body cfg daily_hours t p.1) p.2)
    as [(new & Hnew & _) _]; [by apply placed_refl | exact Hw' |].
  exists b, new. split; [|split; [exact Hid | by rewrite Hst]].
  by rewrite Hnew, Hbs, <- app_assoc.
Qed.

Lemma task_starts_at_first_instant_witness :
  ∃ tr p, plan_trace default_config now_8am 2 100 [task_a; task_b] = Some tr ∧
    tr !! 1%nat = Some p ∧
    start <$> blocks p.1 = [days 100 + hours 9; days 100 + hours 10] ∧
    ∃ b new, blocks p.2 = blocks p.1 ++ b :: new ∧ task_id b = id task_b ∧
             start b = next_work_start default_config now_8am.
Proof.
  eexists. eexists. split; [vm_compute; reflexivity|]. split; [reflexivity|].
  split; [vm_compute; reflexivity|].
  eapply (task_starts_at_first_instant default_config now_8am 2 100
            [task_a; task_b] _ 1%nat task_b);
    [exact default_config_valid | vm_compute; reflexivity | reflexivity
    | reflexivity | vm_compute; discriminate | vm_compute; discriminate
    | vm_compute; reflexivity].
Defined.

(** X7.  With a daily limit of at most 1/64 of an hour (zero and
    negative limits included, down to minus 10^300, where the product
    with 60 is still a finite number) and a valid configuration, the
    cap is zero or negative, planning still ends, and the plan is empty
    whatever the tasks are. *)
Theorem no_cap_no_blocks cfg now daily_hours tasks :
  valid_config cfg →
  (- inject_Z (10 ^ 300) <= daily_hours)%Q → (daily_hours <= 1 # 64)%Q →
  cap_of daily_hours <= 0 ∧
  ∃ fuel, ∀ fuel', (fuel <= fuel')%nat →
    plan_blocks cfg now daily_hours fuel' tasks = Some [].
Proof.
  intros Hcfg _ Hle64.
  assert (daily_hours * 60 < 1)%Q as Hsmall.
  { apply Qle_lt_trans with ((1 # 64) * 60)%Q; [|reflexivity].
    apply Qmult_le_compat_r; [exact Hle64 | discriminate]. }
  split; [by apply int_of_Q_small|].
  destruct (plan_blocks_returns cfg now daily_hours tasks Hcfg) as (fuel & bs & Hrun).
  exists fuel. intros fuel' Hle. rewrite (Hrun fuel' Hle). f_equal.
  apply (plan_blocks_no_cap cfg now daily_hours fuel tasks bs).
  - by apply int_of_Q_small.
  - by apply Hrun.
Qed.

Lemma no_cap_no_blocks_witness :
  cap_of (1 # 100) <= 0 ∧
  ∃ fuel, ∀ fuel', (fuel <= fuel')%nat →
    plan_blocks default_config now_8am (1 # 100) fuel' [task_a; task_dated] = Some [].
Proof.
  apply (no_cap_no_blocks default_config now_8am (1 # 100) [task_a; task_dated]);
    [exact default_config_valid | vm_compute; discriminate
    | vm_compute; discriminate].
Defined.

(** X8.  A task whose cutoff (one hour before its due date) lies before
    [next_work_start(now)] gets no block and leaves the day budget as
    it is: the plan is the plan of the other tasks, and it is empty
    when every task is past its cutoff, for every configuration. *)
Theorem past_cutoff_ignored cfg now daily_hours fuel tasks :
  plan_blocks cfg now daily_hours fuel tasks =
  plan_blocks cfg now daily_hours fuel
    (filter (λ t, past_cutoff cfg now t = false) tasks) ∧
  (Forall (λ t, past_cutoff cfg now t = true) tasks →
   plan_blocks cfg now daily_hours fuel tasks = Some []).
Proof.
  assert (plan_blocks cfg now daily_hours fuel tasks =
          plan_blocks cfg now daily_hours fuel
            (filter (λ t, past_cutoff cfg now t = false) tasks)) as Heq.
  { unfold plan_blocks. rewrite by_priority_filter_pred. apply for_tasks_skip. }
  split; [exact Heq|]. intros Hall. rewrite Heq. clear Heq.
  replace (filter (λ t, past_cutoff cfg now t = false) tasks) with (@nil Task);
    [reflexivity|].
  symmetry. induction Hall as [|t ts Ht _ IH]; [reflexivity|].
  rewrite filter_cons. destruct (decide _) as [Hf|]; [congruence | exact IH].
Qed.

Lemma past_cutoff_ignored_witness :
  past_cutoff default_config now_8am task_overdue = true ∧
  plan_blocks default_config now_8am 2 100 [task_overdue; task_a] =
  plan_blocks default_config now_8am 2 100 [task_a] ∧
  plan_blocks default_config now_8am 2 100 [task_overdue] = Some [].
Proof.
  split; [reflexivity|]. split.
  - apply (past_cutoff_ignored default_config now_8am 2 100 [task_overdue; task_a]).
  - apply (past_cutoff_ignored default_config now_8am 2 100 [task_overdue]).
    constructor; [reflexivity | constructor].
Defined.

(** X9.  For every pair of hours the sidebar of the interface can set
    (start from 5 to 12, end from 13 to 23) the configuration is valid
    and planning returns a block list; when the end hour is at most 22
    all its blocks lie within the working hours. *)
Theorem ui_settings_plan start_h end_h now daily_hours tasks :
  ui_hours start_h end_h →
  valid_config (ui_config start_h end_h) ∧
  ∃ fuel bs,
    (∀ fuel', (fuel <= fuel')%nat →
       plan_blocks (ui_config start_h end_h) now daily_hours fuel' tasks = Some bs) ∧
    (end_h <= 22 → Forall (block_in_hours (ui_config start_h end_h)) bs).
Proof.
  intros Hui. pose proof (ui_config_valid start_h end_h Hui) as Hcfg.
  split; [exact Hcfg|].
  destruct (plan_blocks_returns (ui_config start_h end_h) now daily_hours tasks Hcfg)
    as (fuel & bs & Hrun).
  exists fuel, bs. split; [exact Hrun|]. intros Hend.
  apply (plan_blocks_hours (ui_config start_h end_h) now daily_hours Hcfg)
    with (fuel := fuel) (tasks := tasks); [|by apply Hrun].
  unfold time_us, ui_config; simpl.
  unfold hours, minutes, DAY, HOUR, MINUTE, SECOND. lia.
Qed.

Lemma ui_settings_plan_witness :
  ui_hours 8 22 ∧
  valid_config (ui_config 8 22) ∧
  ∃ fuel bs,
    (∀ fuel', (fuel <= fuel')%nat →
       plan_blocks (ui_config 8 22) now_2210 12 fuel' [task_long] = Some bs) ∧
    (22 <= 22 → Forall (block_in_hours (ui_config 8 22)) bs).
Proof.
  assert (ui_hours 8 22) as Hui by (unfold ui_hours; lia).
  split; [exact Hui|].
  apply (ui_settings_plan 8 22 now_2210 12 [task_long]). exact Hui.
Defined.

(** X10.  When no two tasks have the same sort key (priority, due date
    or now + 30 days), the plan does not depend on the order in which
    the tasks are given. *)
Theorem plan_order_independent cfg now daily_hours fuel tasks tasks' :
  tasks ≡ₚ tasks' → NoDup (sort_key now <$> tasks) →
  plan_blocks cfg now daily_hours fuel tasks =
  plan_blocks cfg now daily_hours fuel tasks'.
Proof.
  intros Hp Hnd. unfold plan_blocks.
  rewrite (sorted_perm_eq now (by_priority now tasks) (by_priority now tasks'));
    [reflexivity | apply by_priority_sorted | apply by_priority_sorted | |].
  - by rewrite !by_priority_perm.
  - by rewrite by_priority_perm.
Qed.

Lemma plan_order_independent_witness :
  plan_blocks default_config now_8am 2 100 [task_a; task_dated] =
  plan_blocks default_config now_8am 2 100 [task_dated; task_a].
Proof.
  apply (plan_order_independent default_config now_8am 2 100
           [task_a; task_dated] [task_dated; task_a]).
  - apply Permutation_swap.
  - apply NoDup_cons. split; [|apply NoDup_singleton].
    intros Hin. apply list_elem_of_singleton in Hin. discriminate Hin.
Defined.

(** X11.  Under a valid configuration the loop of a task makes at most
    max(30, est_minutes or 60) passes plus one pass for every date from
    that of [next_work_start(now)] to that of the task's cutoff: with
    that many passes allowed for every task, planning returns its block
    list. *)
Theorem passes_bound_enough cfg now daily_hours fuel tasks :
  valid_config cfg →
  Forall (λ t, (passes_bound cfg now t <= fuel)%nat) tasks →
  ∃ bs, plan_blocks cfg now daily_hours fuel tasks = Some bs.
Proof.
  intros Hcfg Hall. unfold plan_blocks.
  destruct (for_tasks_enough cfg now daily_hours fuel (by_priority now tasks) Hcfg)
    with (b := (∅ : gmap Z Z)) (bs := @nil Block) as [[tr out] Hr].
  - apply Forall_forall. intros t Ht. rewrite by_priority_perm in Ht.
    by apply (proj1 (Forall_forall _ _) Hall).
  - rewrite Hr. eauto.
Qed.

Lemma passes_bound_enough_witness :
  passes_bound default_config now_8am task_a = 105%nat ∧
  ∃ bs, plan_blocks default_config now_8am 2 105 [task_a; task_dated] = Some bs.
Proof.
  split; [vm_compute; reflexivity|].
  apply (passes_bound_enough default_config now_8am 2 105 [task_a; task_dated]);
    [exact default_config_valid|].
  repeat (constructor; [apply Nat.leb_le; vm_compute; reflexivity|]). constructor.
Defined.

(** * Further properties of the extractor *)

(** X12.  When some line of the text has an action verb, the extractor
    makes one task for each such line, in the order of the lines, titled
    with the trimmed line.  The due date of a task is what the resolver
    gives for the due phrase of its own line, its priority follows from
    that date and the clock as read for its line, its tag is the first
    match of the tag pattern in the line, and its source is the name of
    the input.  Its estimate is 60 when the estimate pattern
    does not match the line; when it matches a numeral of value x with
    a unit of factor f, the estimate is not negative, 0 if x is 0, at
    least 1 if x f is 1 or more, and at most 1 if x f is below 1.  The
    identifiers are taken in the order of the lines. *)
Theorem one_task_per_candidate parse now uuid (text source_name : string) tasks :
  existsb is_candidate (nonblank_lines text) = true →
  rule_based_extract parse now uuid text source_name = Some tasks →
  title <$> tasks = List.filter is_candidate (nonblank_lines text) ∧
  (∀ i t, tasks !! i = Some t → made_from parse (now i) source_name t) ∧
  id <$> tasks = uuid <$> seq 0 (length tasks).
Proof.
  unfold rule_based_extract. intros Hex.
  destruct (extract_lines parse now uuid source_name (nonblank_lines text) [])
    as [ts|] eqn:Hts; [|discriminate].
  simpl. intros [= <-].
  destruct (extract_lines_shape _ _ _ _ _ _ _ Hts) as (new & -> & Ht & Hm & Hid).
  simpl in *. destruct new as [|t new]; [|auto].
  exfalso. apply existsb_exists in Hex as (ln & Hin & Hc).
  assert (In ln (List.filter is_candidate (nonblank_lines text))) as Hf
    by (apply filter_In; auto).
  rewrite <- Ht in Hf. destruct Hf.
Qed.

Lemma one_task_per_candidate_witness :
  ∃ tasks,
    rule_based_extract no_resolver sample_clock sample_uuid
      "Read chapter 4 (~45 min)
Groceries
  fix the CS61 parser " "pasted" = Some tasks ∧
    title <$> tasks = ["Read chapter 4 (~45 min)"; "fix the CS61 parser"] ∧
    (∀ i t, tasks !! i = Some t →
            made_from no_resolver (sample_clock i) "pasted" t) ∧
    id <$> tasks = sample_uuid <$> seq 0 (length tasks).
Proof.
  eexists. split; [vm_compute; reflexivity|].
  split; [reflexivity|].
  apply (one_task_per_candidate no_resolver sample_clock sample_uuid
           "Read chapter 4 (~45 min)
Groceries
  fix the CS61 parser " "pasted"); vm_compute; reflexivity.
Defined.

(** X13.  The extractor returns the empty list exactly for a text that
    is blank, that is, made of white space only; for every other text
    on which it returns, it returns at least one task. *)
Theorem no_task_iff_blank parse now uuid (text source_name : string) :
  (rule_based_extract parse now uuid text source_name = Some [] ↔
   nonempty (strip text) = false) ∧
  (nonempty (strip text) = false ↔ all_space text = true).
Proof.
  split.
  - split.
    + intros Hrun. destruct (nonempty (strip text)) eqn:Hne; [|reflexivity].
      by destruct (rule_based_extract_nonblank _ _ _ _ _ _ Hne Hrun).
    + intros Hne. unfold rule_based_extract.
      rewrite (nonblank_lines_blank text Hne). simpl. by rewrite Hne.
  - rewrite strip_empty. destruct (all_space text); simpl; split; congruence.
Qed.

(** X14.  The priority heuristic follows the time left: of two due
    dates, the one with less time left when its line is read gets the
    same or a more urgent (smaller) priority. *)
Theorem earlier_due_more_urgent now1 now2 d1 d2 :
  d1 - now1 <= d2 - now2 →
  priority_of now1 (Some d1) <= priority_of now2 (Some d2).
Proof. apply priority_of_mono. Qed.

Lemma earlier_due_more_urgent_witness :
  priority_of sep20_8am (Some (sep20_8am + days 2)) = 2 ∧
  priority_of (sep20_8am + 1) (Some oct3_2359) = 3 ∧
  priority_of sep20_8am (Some (sep20_8am + days 2))
  <= priority_of (sep20_8am + 1) (Some oct3_2359).
Proof.
  split; [vm_compute; reflexivity|]. split; [vm_compute; reflexivity|].
  apply (earlier_due_more_urgent sep20_8am (sep20_8am + 1)
           (sep20_8am + days 2) oct3_2359).
  vm_compute. discriminate.
Defined.

(** X15.  Without the language model, every task
    [extract_tasks_from_inputs] returns was made by the rule-based
    extractor from one of the inputs and carries the name of that input
    as its source; no two of the tasks have the same normalised title;
    and when every input text is non-blank, as the interface ensures,
    and there is at least one input, at least one task is returned. *)
Theorem inputs_give_tasks parse now uuid raw_texts tasks :
  extract_tasks_from_inputs parse now uuid raw_texts = Some tasks →
  Forall (from_input parse now uuid raw_texts) tasks ∧
  NoDup (title_key <$> tasks) ∧
  (input_blobs raw_texts → raw_texts ≠ [] → tasks ≠ []).
Proof.
  unfold extract_tasks_from_inputs.
  destruct (extract_inputs parse now uuid raw_texts []) as [all_tasks|] eqn:Hall;
    [|discriminate].
  simpl. intros [= <-].
  destruct (extract_inputs_shape _ _ _ _ _ _ Hall) as (new & -> & Hfrom & Hne).
  simpl. split; [|split].
  - apply Forall_forall. intros t Ht.
    apply (proj1 (Forall_forall _ _) Hfrom).
    eapply elem_of_sublist; [exact Ht | apply dedupe_sublist].
  - apply dedupe_keys_nodup.
  - intros Hblobs Hraw. apply dedupe_nonempty. by apply Hne.
Qed.

Lemma inputs_give_tasks_witness :
  ∃ tasks,
    extract_tasks_from_inputs no_resolver sample_clock sample_uuid two_inputs
    = Some tasks ∧
    (title <$> tasks, source <$> tasks) =
      (["Read chapter 4 (~45 min)"; "Fix the bike"],
       [Some "pasted"; Some "notes.txt"]) ∧
    Forall (from_input no_resolver sample_clock sample_uuid two_inputs) tasks ∧
    NoDup (title_key <$> tasks) ∧
    (input_blobs two_inputs → two_inputs ≠ [] → tasks ≠ []).
Proof.
  eexists. split; [vm_compute; reflexivity|]. split; [reflexivity|].
  apply (inputs_give_tasks no_resolver sample_clock sample_uuid two_inputs).
  vm_compute. reflexivity.
Defined.

(** X16.  [tasks_to_notion_md] lists the tasks in the stable order of
    the key (priority, due date), a missing due date counting as
    [FAR_FUTURE].  When every due date is before [FAR_FUTURE], a task
    without a due date is followed, within its priority, by tasks
    without a due date only. *)
Theorem notion_undated_last far tasks :
  Forall (λ t, ∀ d, due t = Some d → d < far) tasks →
  Notion.listed far tasks ≡ₚ tasks ∧
  StronglySorted (λ a b, key_le (Notion.sort_key far a) (Notion.sort_key far b))
    (Notion.listed far tasks) ∧
  (∀ k, filter (λ t, Notion.sort_key far t = k) (Notion.listed far tasks) =
        filter (λ t, Notion.sort_key far t = k) tasks) ∧
  undated_last (Notion.listed far tasks).
Proof.
  intros Hdue. rewrite notion_listed_by_priority.
  assert (∀ t, Notion.sort_key far t = sort_key (far - days 30) t) as Hkey.
  { intros t. unfold Notion.sort_key, sort_key. do 2 f_equal. lia. }
  pose proof (by_priority_sorted (far - days 30) tasks) as Hs.
  split; [apply by_priority_perm|]. split; [|split].
  - eapply sorted_impl; [|exact Hs].
    intros a b Hab. simpl. rewrite !Hkey. exact Hab.
  - intros k.
    etrans; [apply (list_filter_iff _ (λ t, sort_key (far - days 30) t = k));
             intros t; by rewrite Hkey|].
    etrans; [apply by_priority_filter|].
    apply list_filter_iff. intros t. by rewrite Hkey.
  - intros i j a b Ha Hb Hij Hp Hda.
    pose proof (sorted_lookup _ _ i j a b Hs Ha Hb Hij) as Hk.
    destruct (due b) as [d|] eqn:Hdb; [exfalso | reflexivity].
    assert (b ∈ tasks) as Hin.
    { rewrite <- (by_priority_perm (far - days 30) tasks).
      eapply list_elem_of_lookup_2. exact Hb. }
    pose proof (proj1 (Forall_forall _ _) Hdue b Hin d Hdb) as Hlt.
    unfold key_le, sort_key in Hk. simpl in Hk. rewrite Hda, Hdb in Hk.
    simpl in Hk. lia.
Qed.

Lemma notion_undated_last_witness :
  Notion.listed sample_far_future [task_far; task_a] = [task_far; task_a] ∧
  Notion.listed sample_far_future [task_far; task_a] ≡ₚ [task_far; task_a] ∧
  StronglySorted (λ a b, key_le (Notion.sort_key sample_far_future a)
                                (Notion.sort_key sample_far_future b))
    (Notion.listed sample_far_future [task_far; task_a]) ∧
  (∀ k, filter (λ t, Notion.sort_key sample_far_future t = k)
          (Notion.listed sample_far_future [task_far; task_a]) =
        filter (λ t, Notion.sort_key sample_far_future t = k) [task_far; task_a]) ∧
  undated_last (Notion.listed sample_far_future [task_far; task_a]).
Proof.
  split; [vm_compute; reflexivity|].
  apply (notion_undated_last sample_far_future [task_far; task_a]).
  repeat (constructor; [intros d [= <-]; vm_compute; reflexivity|]).
  repeat (constructor; [intros d Hd; discriminate Hd|]). constructor.
Defined.

(** X17.  For a text none of whose lines, once trimmed, has more than
    300 characters, the extractor returns a task list: no conversion of
    an estimate raises, whatever the text, the clock and the date
    resolver are. *)
Theorem extractor_returns parse now uuid (text source_name : string) :
  Forall (λ ln, (String.length ln <= MAX_LINE)%nat) (nonblank_lines text) →
  ∃ tasks, rule_based_extract parse now uuid text source_name = Some tasks.
Proof.
  intros Hshort. unfold rule_based_extract.
  destruct (extract_lines_returns parse now uuid source_name _ [] Hshort)
    as [tasks ->].
  simpl. eauto.
Qed.

Lemma extractor_returns_witness :
  ∃ tasks, rule_based_extract resolve_oct3 sample_clock sample_uuid sample_line "pasted"
           = Some tasks.
Proof.
  apply (extractor_returns resolve_oct3 sample_clock sample_uuid sample_line "pasted").
  replace (nonblank_lines sample_line) with [sample_line]
    by (vm_compute; reflexivity).
  constructor; [|constructor]. apply Nat.leb_le. vm_compute. reflexivity.
Defined.

(** X18.  Whenever the due-phrase pattern matches a line, its group 1
    took part in the match, so the date resolver is always given a
    string; whenever the estimate pattern matches, its groups 1 and 2
    took part, and group 1 is a numeral that [float] converts. *)
Theorem pattern_groups_set (ln : string) :
  (∀ m, search DUE_PAT ln = Some m → ∃ s, group 1 m = Some s) ∧
  (∀ e, search EST_PAT ln = Some e →
     ∃ val unit x, group 1 e = Some val ∧ group 2 e = Some unit ∧
                   float_of_str val = Some x).
Proof. split; [apply due_group_set | apply est_groups_set]. Qed.

(** X19.  A line is taken as a task only if it contains one of the
    fourteen action verbs, in any letter case: a line without any of
    them never passes the candidate test. *)
Theorem candidate_has_verb (ln : string) :
  is_candidate ln = true →
  ∃ pre v post, ln = pre +:+ v +:+ post ∧ lower v ∈ ACTION_VERBS.
Proof. apply candidate_verb. Qed.

Lemma candidate_has_verb_witness :
  is_candidate "Please FIX the bike" = true ∧
  ∃ pre v post, "Please FIX the bike" = pre +:+ v +:+ post ∧
                lower v ∈ ACTION_VERBS.
Proof.
  split; [vm_compute; reflexivity|].
  apply (candidate_has_verb "Please FIX the bike"). vm_compute. reflexivity.
Defined.
